(** * calendar-weather: the title codec and the sync cycle of [index.js]

    A shallow embedding of the second (deployed) program of [src/index.js]:
    [getWeatherInfo] (lines 292-328), [updateCalendarEvents] (lines 335-418)
    and [watchForChanges] (lines 424-430).

    JavaScript strings are sequences of UTF-16 code units; they are modelled
    as [list N].  The two regular expressions used to clean a title are
    modelled by the scanners [remove_parens] and [remove_emoji]; the second
    one carries the [u] flag and therefore reads the string code point by
    code point.  The collaborators (calendar, weather provider, clock) are
    oracles of an environment record; the program is written in a small
    state-and-exception monad that threads [lastSyncToken], a counter of
    external calls and the trace of those calls. *)

From Stdlib Require Import List ZArith NArith QArith Qround Lia Bool.
From Stdlib Require Import String Ascii DecimalString.
Import ListNotations.

Local Open Scope N_scope.

(** ** JavaScript strings *)

Definition jsstring := list N.

(** An ASCII literal as a sequence of code units. *)
Definition lit (s : string) : jsstring :=
  List.map N_of_ascii (list_ascii_of_string s).

Definition LPAREN : N := 40.
Definition RPAREN : N := 41.
Definition SPACE : N := 32.
Definition DEGREE : N := 0xB0.

Definition is_high_surrogate (u : N) : bool := (0xD800 <=? u) && (u <=? 0xDBFF).
Definition is_low_surrogate (u : N) : bool := (0xDC00 <=? u) && (u <=? 0xDFFF).

(** The code point denoted by a surrogate pair. *)
Definition code_point (hi lo : N) : N :=
  0x10000 + (hi - 0xD800) * 0x400 + (lo - 0xDC00).

(** The character class [[\u{1F300}-\u{1F9FF}]]. *)
Definition is_emoji (cp : N) : bool := (0x1F300 <=? cp) && (cp <=? 0x1F9FF).

(** ECMAScript WhiteSpace and LineTerminator, the characters [trim] removes. *)
Definition is_white_space (u : N) : bool :=
  ((9 <=? u) && (u <=? 13)) || (u =? 32) || (u =? 0xA0) || (u =? 0x1680)
  || ((0x2000 <=? u) && (u <=? 0x200A)) || (u =? 0x2028) || (u =? 0x2029)
  || (u =? 0x202F) || (u =? 0x205F) || (u =? 0x3000) || (u =? 0xFEFF).

Fixpoint trimStart (s : jsstring) : jsstring :=
  match s with
  | [] => []
  | u :: r => if is_white_space u then trimStart r else s
  end.

Fixpoint trimEnd (s : jsstring) : jsstring :=
  match s with
  | [] => []
  | u :: r =>
      match trimEnd r with
      | [] => if is_white_space u then [] else [u]
      | r' => u :: r'
      end
  end.

(** [String.prototype.trim]. *)
Definition trim (s : jsstring) : jsstring := trimEnd (trimStart s).

(** Is there a closing parenthesis in [s]? *)
Definition has_close (s : jsstring) : bool := existsb (N.eqb RPAREN) s.

(** [s.replace(/\([^)]*\)/g, '')].  [outside] scans for the next match; at
    an opening parenthesis the pattern matches exactly when a closing one
    follows, and the match then runs to the first closing parenthesis
    ([inside] drops it).  Where no match starts, the code unit is kept. *)
Fixpoint outside (s : jsstring) : jsstring :=
  match s with
  | [] => []
  | u :: r =>
      if (u =? LPAREN) && has_close r then inside r else u :: outside r
  end
with inside (s : jsstring) : jsstring :=
  match s with
  | [] => []
  | u :: r => if u =? RPAREN then outside r else inside r
  end.

Definition remove_parens (s : jsstring) : jsstring := outside s.

(** [s.replace(/[\u{1F300}-\u{1F9FF}]/gu, '')].  With the [u] flag the
    string is read as code points: a high surrogate directly followed by a
    low surrogate is one code point, any other code unit stands alone. *)
Fixpoint remove_emoji (s : jsstring) : jsstring :=
  match s with
  | [] => []
  | hi :: tl =>
      match tl with
      | [] => [hi]
      | lo :: rest =>
          if is_high_surrogate hi && is_low_surrogate lo then
            if is_emoji (code_point hi lo) then remove_emoji rest
            else hi :: lo :: remove_emoji rest
          else hi :: remove_emoji tl
      end
  end.

(** Lines 387-388: the clean title of an event summary (the spec's [strip]). *)
Definition cleanTitle (summary : jsstring) : jsstring :=
  trim (remove_emoji (trim (remove_parens summary))).

(** Line 390: [`${cleanTitle} ${weatherDesc}`] (the spec's [compose]). *)
Definition newTitle (clean weatherDesc : jsstring) : jsstring :=
  clean ++ SPACE :: weatherDesc.

(** ** Properties of strings used in the statements *)

(** No code unit of [s] is a parenthesis. *)
Definition no_parens (s : jsstring) : bool :=
  forallb (fun u => negb (u =? LPAREN) && negb (u =? RPAREN)) s.

(** Does [s], read as code points, hold a code point of the emoji class? *)
Fixpoint has_emoji (s : jsstring) : bool :=
  match s with
  | [] => false
  | hi :: tl =>
      match tl with
      | [] => false
      | lo :: rest =>
          if is_high_surrogate hi && is_low_surrogate lo then
            is_emoji (code_point hi lo) || has_emoji rest
          else has_emoji tl
      end
  end.

(** [s] neither starts nor ends with white space. *)
Definition trimmed (s : jsstring) : bool :=
  match s with
  | [] => true
  | u :: _ => negb (is_white_space u) && negb (is_white_space (last s u))
  end.

(** Well-formed UTF-16: every surrogate code unit is half of a pair. *)
Fixpoint well_formed (s : jsstring) : bool :=
  match s with
  | [] => true
  | u :: tl =>
      if is_high_surrogate u then
        match tl with
        | [] => false
        | lo :: rest => is_low_surrogate lo && well_formed rest
        end
      else negb (is_low_surrogate u) && well_formed tl
  end.


(** ** Values, events and the collaborators' data *)

Local Open Scope Z_scope.

(** The values [lastSyncToken] and the [syncToken] argument range over. *)
Inductive JsValue :=
| JsUndefined
| JsNull
| JsString (s : jsstring).

(** [if (v)]: only a non-empty string is truthy. *)
Definition truthy (v : JsValue) : bool :=
  match v with
  | JsString (_ :: _) => true
  | _ => false
  end.

(** A thrown error; only its [code] property is inspected by the program. *)
Record JsError := { code : option Z }.

(** [error.code === 410] *)
Definition is_410 (error : JsError) : bool :=
  match code error with
  | Some c => c =? 410
  | None => false
  end.

(** [event.start]: a date-time, or a date for an all-day event; both are
    held as the time value (milliseconds) [new Date(...)] gives them. *)
Inductive EventStart :=
| DateTime (t : Z)
| DateOnly (t : Z).

(** An item of [res.data.items], with the three properties the loop reads
    ([event.id], [event.summary], [event.start]). *)
Record Event := { eventId : jsstring; summary : jsstring; start : EventStart }.

(** The parameters of [calendar.events.list] that vary; [calendarId],
    [singleEvents] and [orderBy] are constants of the program. *)
Record ListParams :=
  { timeMin : option Z; timeMax : option Z; syncToken : option jsstring }.

(** [res.data] of a successful [calendar.events.list]. *)
Record ListResponse := { items : option (list Event); nextSyncToken : JsValue }.

(** One hourly slot and one day of [res.data.forecast.forecastday].  [time]
    and [date] hold the time values of [new Date(h.time)] and
    [new Date(day.date)]; [temp_c] is the JSON number as a rational. *)
Record HourData := { time : Z; condition_text : jsstring; temp_c : Q }.
Record ForecastDay := { date : Z; hour : list HourData }.

(** The calls the program makes, in order: the two calendar operations, the
    writes of [lastSyncToken], the calls of [getWeatherInfo], the HTTP
    request it sends, and the two [console.error] lines. *)
Inductive Effect :=
| EventsList (p : ListParams)
| SetLastSyncToken (v : JsValue)
| GetWeatherInfo (eventDate : Z)
| AxiosGet (days : Z)
| EventsPatch (id title : jsstring)
| ConsoleError (label : string) (error : JsError).

(** The environment: what the clock, the runtime's local-time functions and
    the two providers answer.  The [nat] is the number of external calls made
    so far, so an answer may change from one call to the next.
    [addDays t n] is [setDate(getDate() + n)] on the date [t], [toDateString]
    identifies the local calendar day of a time value. *)
Record Env := {
  clock : nat -> Z;
  addDays : Z -> Z -> Z;
  toDateString : Z -> Z;
  getHours : Z -> Z;
  toLowerCase : jsstring -> jsstring;
  events_list : nat -> ListParams -> JsError + ListResponse;
  events_patch : nat -> jsstring -> jsstring -> option JsError;
  axios_get : nat -> Z -> JsError + list ForecastDay
}.

(** The program state: the global [lastSyncToken], the number of external
    calls made and the trace of effects, oldest first. *)
Record State := { lastSyncToken : JsValue; calls : nat; trace : list Effect }.

(** ** A state-and-exception monad for the program *)

Definition M (A : Type) : Type := State -> State * (JsError + A).

Definition ret {A} (a : A) : M A := fun st => (st, inr a).

Definition throw {A} (e : JsError) : M A := fun st => (st, inl e).

Definition bind {A B} (m : M A) (k : A -> M B) : M B :=
  fun st =>
    match m st with
    | (st', inr a) => k a st'
    | (st', inl e) => (st', inl e)
    end.

Definition try_catch {A} (m : M A) (handler : JsError -> M A) : M A :=
  fun st =>
    match m st with
    | (st', inl e) => handler e st'
    | r => r
    end.

Notation "x <- m ;; k" := (bind m (fun x => k))
  (at level 61, m at next level, right associativity).
Notation "m ;;; k" := (bind m (fun _ => k))
  (at level 61, right associativity).

Definition emit (e : Effect) : M unit :=
  fun st =>
    ({| lastSyncToken := lastSyncToken st; calls := calls st;
        trace := trace st ++ [e] |}, inr tt).

Definition tick (st : State) : State :=
  {| lastSyncToken := lastSyncToken st; calls := S (calls st); trace := trace st |}.

(** [new Date()] *)
Definition new_Date (env : Env) : M Z :=
  fun st => (tick st, inr (clock env (calls st))).

(** [lastSyncToken = v] *)
Definition set_lastSyncToken (v : JsValue) : M unit :=
  fun st =>
    ({| lastSyncToken := v; calls := calls st;
        trace := trace st ++ [SetLastSyncToken v] |}, inr tt).

(** [await calendar.events.list(listParams)] *)
Definition calendar_events_list (env : Env) (p : ListParams) : M ListResponse :=
  emit (EventsList p) ;;;
  fun st => (tick st, events_list env (calls st) p).

(** [await calendar.events.patch({ eventId, requestBody: { summary } })] *)
Definition calendar_events_patch (env : Env) (id title : jsstring) : M unit :=
  emit (EventsPatch id title) ;;;
  fun st =>
    (tick st,
     match events_patch env (calls st) id title with
     | Some e => inl e
     | None => inr tt
     end).

(** [await axios.get(url)] on the forecast URL with [days=...]; a response
    without the fields read afterwards counts as a failed call. *)
Definition axios_get_forecast (env : Env) (days : Z) : M (list ForecastDay) :=
  emit (AxiosGet days) ;;;
  fun st => (tick st, axios_get env (calls st) days).

(** ** getWeatherInfo (lines 292-328) *)

Definition MS_PER_DAY : Z := 1000 * 60 * 60 * 24.

(** [Math.ceil(a / b)] for integers [a] and positive [b]. *)
Definition Math_ceil_div (a b : Z) : Z := - ((- a) / b).

(** [Math.round]: the nearest integer, ties towards positive infinity. *)
Definition Math_round (q : Q) : Z := Qfloor (q + (1 # 2)).

(** A rounded temperature inside a template literal: the decimal notation
    JavaScript uses for integers below 10^21 in absolute value. *)
Definition number_to_string (z : Z) : jsstring :=
  lit (NilZero.string_of_int (Z.to_int z)).

Definition FORECAST_UNAVAILABLE : jsstring := lit "(forecast unavailable)".
Definition WEATHER_UNAVAILABLE : jsstring := lit "(weather unavailable)".

(** Lines 321-323: [`(${condition}, ${Math.round(tempC)}°C)`]. *)
Definition weather_description (env : Env) (hourData : HourData) : jsstring :=
  let condition := toLowerCase env (condition_text hourData) in
  let tempC := temp_c hourData in
  LPAREN%N :: condition ++ lit ", " ++ number_to_string (Math_round tempC)
    ++ DEGREE :: lit "C)".

(** The labels of the two [console.error] calls. *)
Definition UPDATE_ERROR : string := "Error updating calendar events:".
Definition WEATHER_ERROR : string := "Weather API Error:".

(** The error raised by reading a property of [undefined]. *)
Definition TypeError : JsError := {| code := None |}.

Definition getWeatherInfo (env : Env) (eventDate : Z) : M jsstring :=
  emit (GetWeatherInfo eventDate) ;;;
  try_catch
    (now <- new_Date env ;;
     let daysDifference := Math_ceil_div (eventDate - now) MS_PER_DAY in
     if daysDifference >? 14 then ret FORECAST_UNAVAILABLE
     else
       forecastday <- axios_get_forecast env (daysDifference + 1) ;;
       match find (fun day => toDateString env (date day)
                              =? toDateString env eventDate) forecastday with
       | None => ret FORECAST_UNAVAILABLE
       | Some forecast =>
           let eventHour := getHours env eventDate in
           let hourData :=
             match find (fun h => getHours env (time h) =? eventHour)
                        (hour forecast) with
             | Some h => Some h
             | None => List.hd_error (hour forecast)
             end in
           match hourData with
           | None => throw TypeError
           | Some h => ret (weather_description env h)
           end
       end)
    (fun error =>
       emit (ConsoleError WEATHER_ERROR error) ;;;
       ret WEATHER_UNAVAILABLE).

(** ** updateCalendarEvents (lines 335-418) *)

Fixpoint jsstring_eqb (a b : jsstring) : bool :=
  match a, b with
  | [], [] => true
  | x :: a', y :: b' => (x =? y)%N && jsstring_eqb a' b'
  | _, _ => false
  end.

(** Lines 345-359: the time range, replaced by the token when there is one. *)
Definition listParams (syncToken : JsValue) (timeMin timeMax : Z) : ListParams :=
  match syncToken with
  | JsString (u :: s) =>
      {| timeMin := None; timeMax := None; syncToken := Some (u :: s) |}
  | _ => {| timeMin := Some timeMin; timeMax := Some timeMax; syncToken := None |}
  end.

(** Lines 376-377: [new Date(event.start.dateTime || event.start.date)]. *)
Definition eventDate (event : Event) : Z :=
  match start event with
  | DateTime t => t
  | DateOnly t => t
  end.

(** Lines 376-404: the body of the loop; [ret tt] on the skip is [continue]. *)
Definition process_event (env : Env) (timeMax : Z) (event : Event) : M unit :=
  if eventDate event >? timeMax then ret tt
  else
    weatherDesc <- getWeatherInfo env (eventDate event) ;;
    let title := newTitle (cleanTitle (summary event)) weatherDesc in
    if negb (jsstring_eqb title (summary event))
    then calendar_events_patch env (eventId event) title
    else ret tt.

Fixpoint for_of {A} (body : A -> M unit) (l : list A) : M unit :=
  match l with
  | [] => ret tt
  | x :: r => body x ;;; for_of body r
  end.

(** Lines 339-407: the [try] block. *)
Definition try_block (env : Env) (syncToken : JsValue) : M unit :=
  timeMin <- new_Date env ;;
  today <- new_Date env ;;
  let timeMax := addDays env today 7 in
  res <- calendar_events_list env (listParams syncToken timeMin timeMax) ;;
  set_lastSyncToken (nextSyncToken res) ;;;
  match items res with
  | None => ret tt
  | Some [] => ret tt
  | Some events => for_of (process_event env timeMax) events
  end.

(** The default value [syncToken = null] of the parameter. *)
Definition default_null (v : JsValue) : JsValue :=
  match v with
  | JsUndefined => JsNull
  | _ => v
  end.

Definition run {A} (m : M A) (st : State) : State := fst (m st).

(** The whole function; [fuel] bounds the depth of the recursive call of the
    [catch] block, and [None] means the bound was reached. *)
Fixpoint updateCalendarEvents (fuel : nat) (env : Env) (syncToken : JsValue)
    (st : State) : option State :=
  match fuel with
  | O => None
  | S fuel' =>
      match try_block env (default_null syncToken) st with
      | (st', inr _) => Some st'
      | (st', inl error) =>
          if is_410 error then
            updateCalendarEvents fuel' env JsUndefined
              (run (set_lastSyncToken JsNull) st')
          else
            Some (run (emit (ConsoleError UPDATE_ERROR error)) st')
      end
  end.

(** Lines 424-430. *)
Definition watchForChanges (fuel : nat) (env : Env) (st : State) : option State :=
  updateCalendarEvents fuel env (lastSyncToken st) st.

(** ** Concrete environments used to run the program *)

Definition utc_addDays (t n : Z) : Z := t + n * MS_PER_DAY.
Definition utc_toDateString (t : Z) : Z := t / MS_PER_DAY.
Definition utc_getHours (t : Z) : Z := (t mod MS_PER_DAY) / 3600000.

(** [toLowerCase] restricted to the letters A-Z. *)
Definition ascii_toLowerCase (s : jsstring) : jsstring :=
  List.map (fun u => if (65 <=? u)%N && (u <=? 90)%N then (u + 32)%N else u) s.

(** A runtime in UTC whose clock starts at [t0] and advances one second per
    external call, with the given providers. *)
Definition utc_env (t0 : Z)
    (list_oracle : nat -> ListParams -> JsError + ListResponse)
    (patch_oracle : nat -> jsstring -> jsstring -> option JsError)
    (forecast_oracle : nat -> Z -> JsError + list ForecastDay) : Env :=
  {| clock := fun n => t0 + 1000 * Z.of_nat n;
     addDays := utc_addDays;
     toDateString := utc_toDateString;
     getHours := utc_getHours;
     toLowerCase := ascii_toLowerCase;
     events_list := list_oracle;
     events_patch := patch_oracle;
     axios_get := forecast_oracle |}.

Definition initial_state : State :=
  {| lastSyncToken := JsNull; calls := 0; trace := [] |}.

Definition http_error (status : Z) : JsError := {| code := Some status |}.

Definition no_events : nat -> ListParams -> JsError + ListResponse :=
  fun _ _ => inr {| items := Some []; nextSyncToken := JsString (lit "t1") |}.
Definition patch_ok : nat -> jsstring -> jsstring -> option JsError :=
  fun _ _ _ => None.
Definition forecast_down : nat -> Z -> JsError + list ForecastDay :=
  fun _ _ => inl (http_error 503).

(** 2024-01-01T00:00:00Z *)
Definition T0 : Z := 1704067200000.

Definition plain_env : Env := utc_env T0 no_events patch_ok forecast_down.


(** An hourly slot whose condition text holds a closing parenthesis. *)
Definition odd_hour : HourData :=
  {| time := T0; condition_text := lit "a)b"; temp_c := 20 # 1 |}.

Definition cloudy_hour : HourData :=
  {| time := T0; condition_text := lit "Cloudy"; temp_c := 39 # 2 |}.

(** ** Auxiliary notions for the proofs about the scanners *)

(** [subseq a b]: [a] is [b] with some code units deleted. *)
Inductive subseq : jsstring -> jsstring -> Prop :=
| subseq_nil : subseq [] []
| subseq_keep u a b : subseq a b -> subseq (u :: a) (u :: b)
| subseq_drop u a b : subseq a b -> subseq a (u :: b).

(** No opening parenthesis of [s] has a closing one after it: the pattern
    [\([^)]*\)] matches nowhere. *)
Fixpoint quiet (s : jsstring) : bool :=
  match s with
  | [] => true
  | u :: r => negb ((u =? LPAREN)%N && has_close r) && quiet r
  end.

(** [s] is well formed, possibly after a leading low surrogate. *)
Definition well_formed_tail (s : jsstring) : bool :=
  well_formed s
  || match s with
     | [] => false
     | lo :: r => is_low_surrogate lo && well_formed r
     end.

(** The emoji U+1F300 between the two halves of another U+1F300. *)
Definition split_pair : jsstring := [0xD83C; 0xD83C; 0xDF00; 0xDF00]%N.

(** ** Notions used to state the properties of a cycle *)

(** The upper bound [timeMax] a cycle started in [st] computes (line 342). *)
Definition cycle_timeMax (env : Env) (st : State) : Z :=
  addDays env (clock env (S (calls st))) 7.

(** The parameters a cycle started in [st] with argument [tok] sends. *)
Definition cycle_params (env : Env) (tok : JsValue) (st : State) : ListParams :=
  listParams (default_null tok) (clock env (calls st)) (cycle_timeMax env st).

(** What the calendar answers to the fetch of that cycle. *)
Definition fetch_answer (env : Env) (tok : JsValue) (st : State)
    : JsError + ListResponse :=
  events_list env (S (S (calls st))) (cycle_params env tok st).

(** The state right after line 363, when the fetch returned next-token [v]. *)
Definition after_fetch (env : Env) (tok : JsValue) (st : State) (v : JsValue)
    : State :=
  {| lastSyncToken := v;
     calls := S (S (S (calls st)));
     trace := trace st ++ [EventsList (cycle_params env tok st); SetLastSyncToken v] |}.

(** The state in which the [catch] block is entered when the fetch threw. *)
Definition fetch_failed (env : Env) (tok : JsValue) (st : State) : State :=
  {| lastSyncToken := lastSyncToken st;
     calls := S (S (S (calls st)));
     trace := trace st ++ [EventsList (cycle_params env tok st)] |}.

(** [res.data.items], with an absent list read as the empty one. *)
Definition events_of (res : ListResponse) : list Event :=
  match items res with
  | Some l => l
  | None => []
  end.

Definition is_patch (e : Effect) : bool :=
  match e with
  | EventsPatch _ _ => true
  | _ => false
  end.

Definition is_list (e : Effect) : bool :=
  match e with
  | EventsList _ => true
  | _ => false
  end.

(** The patch calls, respectively the fetches, of a trace. *)
Definition patches (tr : list Effect) : list Effect := filter is_patch tr.
Definition fetches (tr : list Effect) : list Effect := filter is_list tr.


(** [s.endsWith(suffix)] *)
Definition ends_with (s suffix : jsstring) : bool :=
  jsstring_eqb (skipn (List.length s - List.length suffix) s) suffix.

(** The state a patch call leaves behind. *)
Definition after_patch (st : State) (id title : jsstring) : State :=
  {| lastSyncToken := lastSyncToken st;
     calls := S (calls st);
     trace := trace st ++ [EventsPatch id title] |}.

(** ** Scenarios *)

Definition ev1 : Event :=
  {| eventId := lit "e1"; summary := lit "Standup";
     start := DateTime (T0 + 3600000) |}.

Definition ev2 : Event :=
  {| eventId := lit "e2"; summary := lit "Lunch";
     start := DateOnly (T0 + MS_PER_DAY) |}.

(** Thirty days ahead: outside the seven-day window. *)
Definition ev_far : Event :=
  {| eventId := lit "e3"; summary := lit "Trip";
     start := DateOnly (T0 + 30 * MS_PER_DAY) |}.

(** An event whose summary already carries the text of [sunny_forecast]. *)
Definition ev_done : Event :=
  {| eventId := lit "e4";
     summary := lit "Review (sunny, 19" ++ DEGREE :: lit "C)";
     start := DateTime (T0 + 3600000) |}.

Definition answer (evs : list Event) (next : JsValue)
    : nat -> ListParams -> JsError + ListResponse :=
  fun _ _ => inr {| items := Some evs; nextSyncToken := next |}.

(** A calendar that rejects every token with status 410. *)
Definition token_expired (evs : list Event) (next : JsValue)
    : nat -> ListParams -> JsError + ListResponse :=
  fun _ p =>
    match syncToken p with
    | Some _ => inl (http_error 410)
    | None => inr {| items := Some evs; nextSyncToken := next |}
    end.

(** A calendar that answers 410 to every call made before call [n]. *)
Definition gone_until (n : nat) (evs : list Event) (next : JsValue)
    : nat -> ListParams -> JsError + ListResponse :=
  fun k _ =>
    if (k <? n)%nat then inl (http_error 410)
    else inr {| items := Some evs; nextSyncToken := next |}.

Definition list_fails (status : Z) : nat -> ListParams -> JsError + ListResponse :=
  fun _ _ => inl (http_error status).

(** Patching event [id] fails with the given status. *)
Definition patch_fails (id : jsstring) (status : Z)
    : nat -> jsstring -> jsstring -> option JsError :=
  fun _ i _ => if jsstring_eqb i id then Some (http_error status) else None.

(** One forecast day, 2024-01-01, with the slot of 01:00 at 18.5 degrees. *)
Definition sunny_forecast : nat -> Z -> JsError + list ForecastDay :=
  fun _ _ =>
    inr [ {| date := T0;
             hour := [ {| time := T0 + 3600000;
                          condition_text := lit "Sunny";
                          temp_c := 37 # 2 |} ] |} ].

Definition with_token (tok : jsstring) : State :=
  {| lastSyncToken := JsString tok; calls := 0; trace := [] |}.

(** The state in which the recursive call of the [catch] block starts. *)
Definition retry_state (env : Env) (tok : JsValue) (st : State) : State :=
  {| lastSyncToken := JsNull;
     calls := S (S (S (calls st)));
     trace := trace st ++ [EventsList (cycle_params env tok st);
                           SetLastSyncToken JsNull] |}.

(** A full-range request: explicit bounds and no token. *)
Definition full_range (env : Env) (st : State) : ListParams :=
  {| timeMin := Some (clock env (calls st));
     timeMax := Some (cycle_timeMax env st);
     syncToken := None |}.

(** The test of line 380, negated: the event is within the bound. *)
Definition in_window (timeMax : Z) (event : Event) : bool :=
  eventDate event <=? timeMax.

Definition env_patch_fails : Env :=
  utc_env T0 (answer [ev1; ev2] (JsString (lit "t1")))
    (patch_fails (lit "e1") 500) forecast_down.

Definition env_patch_ok : Env :=
  utc_env T0 (answer [ev1; ev2] (JsString (lit "t1"))) patch_ok forecast_down.

Definition env_gone_twice : Env :=
  utc_env T0 (gone_until 6 [] (JsString (lit "t1"))) patch_ok forecast_down.

Definition env_token_expired : Env :=
  utc_env T0 (token_expired [] (JsString (lit "t1"))) patch_ok forecast_down.

Definition env_list_fails : Env :=
  utc_env T0 (list_fails 500) patch_ok forecast_down.

Definition env_sunny (next : JsValue) : Env :=
  utc_env T0 (answer [ev_done; ev1; ev_far] next) patch_ok sunny_forecast.

(** ** Further notions, for the properties beyond the title round trip *)

(** No code unit of [s] is an opening parenthesis. *)
Definition no_open (s : jsstring) : bool :=
  forallb (fun u => negb (u =? LPAREN)%N) s.

(** A weather text as [getWeatherInfo] builds it: [body] in parentheses. *)
Definition in_parens (body : jsstring) : jsstring :=
  LPAREN%N :: body ++ [RPAREN%N].

(** The number of days between now and the event, as line 297 computes it
    in a lookup started in state [st]. *)
Definition daysDifference (env : Env) (eventDate : Z) (st : State) : Z :=
  Math_ceil_div (eventDate - clock env (calls st)) MS_PER_DAY.

(** Line 309: the first forecast day on the local calendar day of the event. *)
Definition find_day (env : Env) (eventDate : Z) (forecastday : list ForecastDay)
    : option ForecastDay :=
  find (fun day => toDateString env (date day) =? toDateString env eventDate)
    forecastday.

(** Line 319: the first slot at the event's hour, else the day's first slot. *)
Definition pick_hour (env : Env) (eventDate : Z) (forecast : ForecastDay)
    : option HourData :=
  match find (fun h => getHours env (time h) =? getHours env eventDate)
             (hour forecast) with
  | Some h => Some h
  | None => hd_error (hour forecast)
  end.

(** The state after a lookup for [d] that made [n] external calls and the
    further effects [effects]. *)
Definition after_lookup (st : State) (d : Z) (n : nat) (effects : list Effect)
    : State :=
  {| lastSyncToken := lastSyncToken st;
     calls := n + calls st;
     trace := trace st ++ GetWeatherInfo d :: effects |}.

Definition is_lookup (e : Effect) : bool :=
  match e with
  | GetWeatherInfo _ => true
  | _ => false
  end.

Definition is_token_write (e : Effect) : bool :=
  match e with
  | SetLastSyncToken _ => true
  | _ => false
  end.

(** The lookups of a trace. *)
Definition lookups (tr : list Effect) : list Effect := filter is_lookup tr.

(** Every forecast request of the trace asks for at most [n] days. *)
Definition requests_at_most (n : Z) (tr : list Effect) : Prop :=
  forall days, In (AxiosGet days) tr -> days <= n.

(** What the loop of a cycle may do: no fetch, no write of the token, a
    forecast request for at most 15 days, an error log from the lookup only. *)
Definition loop_effect (e : Effect) : Prop :=
  match e with
  | EventsList _ => False
  | SetLastSyncToken _ => False
  | AxiosGet days => days <= 15
  | ConsoleError label _ => label = WEATHER_ERROR
  | GetWeatherInfo _ => True
  | EventsPatch _ _ => True
  end.

(** A request with a token and no bounds, or with both bounds and no token. *)
Definition exclusive (p : ListParams) : bool :=
  match syncToken p, timeMin p, timeMax p with
  | Some (_ :: _), None, None => true
  | None, Some _, Some _ => true
  | _, _, _ => false
  end.

(** What a whole cycle may do: its fetches are [exclusive], its forecast
    requests ask for at most 15 days. *)
Definition cycle_effect (e : Effect) : Prop :=
  match e with
  | EventsList p => exclusive p = true
  | AxiosGet days => days <= 15
  | _ => True
  end.

(** Lines 444-448, the callback of the hourly timer: the token is cleared,
    then the cycle is run without an argument.  The [.catch] of the callback
    has nothing to catch, [updateCalendarEvents] handling its own errors. *)
Definition scheduled_update (fuel : nat) (env : Env) (st : State) : option State :=
  updateCalendarEvents fuel env JsUndefined (run (set_lastSyncToken JsNull) st).

(** Lines 231-243: the answer of the HTTP server to a request for [url].
    The JSON body is held as its three fields, the timestamp as the time
    value of the [new Date()] it is printed from. *)
Inductive Body :=
| HealthJson (status lastSync : string) (timestamp : Z)
| PlainText (text : string).

Record Response := { statusCode : Z; contentType : string; body : Body }.

Definition http_server (env : Env) (url : jsstring) : M Response :=
  fun st =>
    if jsstring_eqb url (lit "/health") then
      (tick st,
       inr {| statusCode := 200;
              contentType := "application/json";
              body := HealthJson "healthy"
                        (if truthy (lastSyncToken st) then "active" else "pending")
                        (clock env (calls st)) |})
    else
      (st, inr {| statusCode := 200;
                  contentType := "text/plain";
                  body := PlainText "Calendar Weather Bot Running" |}).

(** The status code of an answer, when there is one. *)
Definition statusCode_of (r : State * (JsError + Response)) : option Z :=
  match snd r with
  | inr resp => Some (statusCode resp)
  | inl _ => None
  end.

(** ** Further scenarios *)

(** Patching event [e1] is answered with status 410. *)
Definition env_patch_gone : Env :=
  utc_env T0 (answer [ev1; ev2] (JsString (lit "t1")))
    (patch_fails (lit "e1") 410) forecast_down.

(** A summary with a weather text, an emoji and an unclosed parenthesis. *)
Definition busy_summary : jsstring :=
  (lit "Lunch (sunny, 18C) " ++ [0xD83C; 0xDF24] ++ lit " (x")%N.

(** The day of [sunny_forecast]. *)
Definition sunny_day : ForecastDay :=
  {| date := T0;
     hour := [ {| time := T0 + 3600000;
                  condition_text := lit "Sunny";
                  temp_c := 37 # 2 |} ] |}.

(** A calendar whose first fetch succeeds and whose later fetches fail with
    status 500, while patching event [e1] is answered with status 410. *)
Definition env_refetch_fails : Env :=
  utc_env T0
    (fun k _ =>
       if (k <? 3)%nat
       then inr {| items := Some [ev1; ev2]; nextSyncToken := JsString (lit "t1") |}
       else inl (http_error 500))
    (patch_fails (lit "e1") 410) forecast_down.

(** A forecast day with two slots at 01:00 and one at 02:00. *)
Definition crowded_day : ForecastDay :=
  {| date := T0;
     hour := [ {| time := T0 + 7200000; condition_text := lit "Later";
                  temp_c := 3 # 1 |};
               {| time := T0 + 3600000; condition_text := lit "First";
                  temp_c := 1 # 1 |};
               {| time := T0 + 3600000; condition_text := lit "Second";
                  temp_c := 2 # 1 |} ] |}.

Definition env_crowded : Env :=
  utc_env T0 no_events patch_ok (fun _ _ => inr [crowded_day]).
(** * Properties *)

(** ** The title codec *)

Example cleanTitle_standup :
  cleanTitle (lit "Standup (sunny, 18" ++ DEGREE :: lit "C)") = lit "Standup".
Proof. reflexivity. Qed.

Section Scanner.
Local Open Scope N_scope.

Lemma has_close_app (a b : jsstring) :
  has_close (a ++ b) = has_close a || has_close b.
Proof. apply existsb_app. Qed.

Lemma has_close_cons (u : N) (r : jsstring) :
  has_close (u :: r) = (RPAREN =? u) || has_close r.
Proof. reflexivity. Qed.

Lemma no_parens_has_close (s : jsstring) :
  no_parens s = true -> has_close s = false.
Proof.
  induction s as [|u r IH]; intros H; [reflexivity|].
  simpl in H. apply andb_prop in H as [Hu Hr]. apply andb_prop in Hu as [_ Hu].
  rewrite has_close_cons, (IH Hr), N.eqb_sym.
  now destruct (u =? RPAREN).
Qed.

(** Text without an opening parenthesis is copied by the scanner. *)
Lemma outside_app_no_parens (c t : jsstring) :
  no_parens c = true -> outside (c ++ t) = c ++ outside t.
Proof.
  induction c as [|u r IH]; simpl; intros H; [reflexivity|].
  apply andb_prop in H as [Hu Hr]. apply andb_prop in Hu as [Hu _].
  destruct (u =? LPAREN); [discriminate|]. simpl. now rewrite IH.
Qed.

(** A match runs to the first closing parenthesis. *)
Lemma inside_to_close (body r : jsstring) :
  has_close body = false -> inside (body ++ RPAREN :: r) = outside r.
Proof.
  induction body as [|u b IH]; intros H.
  - reflexivity.
  - rewrite has_close_cons in H. apply orb_false_elim in H as [Hu Hb].
    change (inside ((u :: b) ++ RPAREN :: r))
      with (if u =? RPAREN then outside (b ++ RPAREN :: r)
            else inside (b ++ RPAREN :: r)).
    rewrite N.eqb_sym, Hu. now apply IH.
Qed.

Lemma remove_parens_annotation (c body : jsstring) :
  no_parens c = true -> has_close body = false ->
  remove_parens (newTitle c (LPAREN :: body ++ [RPAREN])) = c ++ [SPACE].
Proof.
  intros Hc Hb. unfold remove_parens, newTitle.
  rewrite outside_app_no_parens by assumption.
  change (outside (SPACE :: LPAREN :: body ++ [RPAREN]))
    with (SPACE :: (if (LPAREN =? LPAREN) && has_close (body ++ [RPAREN])
                    then inside (body ++ [RPAREN])
                    else LPAREN :: outside (body ++ [RPAREN]))).
  rewrite has_close_app. simpl (has_close [RPAREN]).
  rewrite orb_true_r. simpl. now rewrite inside_to_close.
Qed.

Lemma trimEnd_cons_nonempty (u : N) (r : jsstring) :
  trimEnd r <> [] -> trimEnd (u :: r) = u :: trimEnd r.
Proof. simpl. destruct (trimEnd r); [congruence | reflexivity]. Qed.

Lemma trimEnd_cons_black (u : N) (r : jsstring) :
  is_white_space u = false -> trimEnd (u :: r) = u :: trimEnd r.
Proof. simpl. intros ->. now destruct (trimEnd r). Qed.

Lemma trimEnd_snoc_white (s : jsstring) (w : N) :
  is_white_space w = true -> trimEnd (s ++ [w]) = trimEnd s.
Proof.
  intros Hw. induction s as [|u r IH]; simpl.
  - now rewrite Hw.
  - now rewrite IH.
Qed.

Lemma last_default (r : jsstring) (v d d' : N) :
  last (v :: r) d = last (v :: r) d'.
Proof.
  revert v. induction r as [|x r IH]; intros v; [reflexivity|].
  change (last (x :: r) d = last (x :: r) d'). apply IH.
Qed.

Lemma trimEnd_fixed (u : N) (s : jsstring) :
  is_white_space (last (u :: s) u) = false -> trimEnd (u :: s) = u :: s.
Proof.
  revert u. induction s as [|v r IH]; intros u H.
  - simpl in *. now rewrite H.
  - change (last (u :: v :: r) u) with (last (v :: r) u) in H.
    rewrite (last_default r v u v) in H. specialize (IH v H).
    rewrite trimEnd_cons_nonempty; rewrite IH; congruence.
Qed.

Lemma trim_fixed (s : jsstring) : trimmed s = true -> trim s = s.
Proof.
  destruct s as [|u r]; [reflexivity|].
  unfold trimmed, trim. intros H. apply andb_prop in H as [H1 H2].
  apply negb_true_iff in H1, H2.
  change (trimStart (u :: r)) with (if is_white_space u then trimStart r else u :: r).
  rewrite H1. now apply trimEnd_fixed.
Qed.

Lemma trim_snoc_space (s : jsstring) :
  trimmed s = true -> trim (s ++ [SPACE]) = s.
Proof.
  intros H. destruct s as [|u r]; [reflexivity|].
  pose proof (trim_fixed _ H) as Hf. unfold trim in *.
  unfold trimmed in H. apply andb_prop in H as [H1 _]. apply negb_true_iff in H1.
  change (trimStart ((u :: r) ++ [SPACE]))
    with (if is_white_space u then trimStart (r ++ [SPACE]) else (u :: r) ++ [SPACE]).
  change (trimStart (u :: r)) with (if is_white_space u then trimStart r else u :: r) in Hf.
  rewrite H1 in *. now rewrite trimEnd_snoc_white.
Qed.

(** Induction over a string two code units at a time. *)
Lemma pair_ind (P : jsstring -> Prop) :
  P [] -> (forall u, P [u]) ->
  (forall u v r, P r -> P (v :: r) -> P (u :: v :: r)) ->
  forall s, P s.
Proof.
  intros H0 H1 H2 s.
  assert (H : P s /\ forall u, P (u :: s)).
  { induction s as [|v r [IHr IHc]]; split; auto. }
  apply H.
Qed.

Lemma remove_emoji_fixed (s : jsstring) :
  has_emoji s = false -> remove_emoji s = s.
Proof.
  induction s as [| u | u v r IHr IHv] using pair_ind; try reflexivity.
  simpl. destruct (is_high_surrogate u && is_low_surrogate v).
  - intros H. apply orb_false_elim in H as [He Hr]. rewrite He.
    now rewrite (IHr Hr).
  - intros H. f_equal. now apply IHv.
Qed.

End Scanner.

Section Roundtrip.
Local Open Scope N_scope.

Lemma has_close_digits (d : Decimal.uint) :
  has_close (lit (NilEmpty.string_of_uint d)) = false.
Proof. induction d; simpl; auto. Qed.

Lemma has_close_number (z : Z) : has_close (number_to_string z) = false.
Proof.
  unfold number_to_string.
  destruct (Z.to_int z) as [d|d]; simpl;
    destruct d; try reflexivity; apply (has_close_digits (_ d)).
Qed.

Lemma weather_description_shape (env : Env) (h : HourData) :
  weather_description env h =
  LPAREN :: (toLowerCase env (condition_text h) ++ lit ", "
             ++ number_to_string (Math_round (temp_c h)) ++ [DEGREE; 67])
         ++ [RPAREN].
Proof.
  unfold weather_description. cbv zeta. f_equal.
  rewrite <- !app_assoc. reflexivity.
Qed.

Lemma cleanTitle_annotation (c body : jsstring) :
  no_parens c = true -> has_emoji c = false -> trimmed c = true ->
  has_close body = false ->
  cleanTitle (newTitle c (LPAREN :: body ++ [RPAREN])) = c.
Proof.
  intros Hp He Ht Hb. unfold cleanTitle.
  rewrite remove_parens_annotation by assumption.
  rewrite trim_snoc_space by assumption.
  rewrite remove_emoji_fixed by assumption.
  now apply trim_fixed.
Qed.

(** C1 (amended).  For a clean title [c] (no parenthesis, no emoji code
    point, no surrounding white space) the clean title of the composed title
    is [c] again, for the two placeholder texts and for every hourly slot
    whose lower-cased condition text holds no closing parenthesis. *)
Theorem cleanTitle_newTitle_roundtrip (env : Env) (c : jsstring) (h : HourData) :
  no_parens c = true -> has_emoji c = false -> trimmed c = true ->
  (has_close (toLowerCase env (condition_text h)) = false ->
   cleanTitle (newTitle c (weather_description env h)) = c)
  /\ cleanTitle (newTitle c FORECAST_UNAVAILABLE) = c
  /\ cleanTitle (newTitle c WEATHER_UNAVAILABLE) = c.
Proof.
  intros Hp He Ht. repeat split.
  - intros Hc. rewrite weather_description_shape.
    apply cleanTitle_annotation; try assumption.
    rewrite !has_close_app, Hc, has_close_number. reflexivity.
  - apply (cleanTitle_annotation c (lit "forecast unavailable")); auto.
  - apply (cleanTitle_annotation c (lit "weather unavailable")); auto.
Qed.

Lemma cleanTitle_newTitle_roundtrip_witness :
  no_parens (lit "Standup") = true /\ has_emoji (lit "Standup") = false
  /\ trimmed (lit "Standup") = true
  /\ has_close (toLowerCase plain_env (condition_text cloudy_hour)) = false
  /\ cleanTitle (newTitle (lit "Standup") (weather_description plain_env cloudy_hour))
     = lit "Standup"
  /\ cleanTitle (newTitle (lit "Standup") FORECAST_UNAVAILABLE) = lit "Standup"
  /\ cleanTitle (newTitle (lit "Standup") WEATHER_UNAVAILABLE) = lit "Standup".
Proof.
  assert (Hp : no_parens (lit "Standup") = true) by reflexivity.
  assert (He : has_emoji (lit "Standup") = false) by reflexivity.
  assert (Ht : trimmed (lit "Standup") = true) by reflexivity.
  assert (Hc : has_close (toLowerCase plain_env (condition_text cloudy_hour)) = false)
    by reflexivity.
  destruct (cleanTitle_newTitle_roundtrip plain_env (lit "Standup") cloudy_hour
              Hp He Ht) as [H1 [H2 H3]].
  exact (conj Hp (conj He (conj Ht (conj Hc (conj (H1 Hc) (conj H2 H3)))))).
Defined.

(** C1 as stated fails: the clean title ["x"] composed with the condition
    text ["a)b"] at 20 degrees is ["x (a)b, 20°C)"], from which the scanner
    removes only ["(a)"]. *)
Lemma roundtrip_fails_on_closing_paren :
  no_parens (lit "x") = true /\ has_emoji (lit "x") = false
  /\ trimmed (lit "x") = true
  /\ newTitle (lit "x") (weather_description plain_env odd_hour)
     = lit "x (a)b, 20" ++ DEGREE :: lit "C)"
  /\ cleanTitle (newTitle (lit "x") (weather_description plain_env odd_hour))
     = lit "x b, 20" ++ DEGREE :: lit "C)"
  /\ cleanTitle (newTitle (lit "x") (weather_description plain_env odd_hour))
     <> lit "x".
Proof. repeat split; try reflexivity. vm_compute. discriminate. Qed.

End Roundtrip.

Section Idempotence.
Local Open Scope N_scope.

Lemma subseq_refl (s : jsstring) : subseq s s.
Proof. induction s; constructor; assumption. Qed.

Lemma subseq_has_close (a b : jsstring) :
  subseq a b -> has_close a = true -> has_close b = true.
Proof.
  induction 1 as [|u a b _ IH|u a b _ IH]; rewrite ?has_close_cons; intros H; auto.
  - apply orb_true_iff in H as [H|H]; [now rewrite H | rewrite (IH H)].
    apply orb_true_r.
  - rewrite (IH H). apply orb_true_r.
Qed.

Lemma quiet_cons (u : N) (r : jsstring) :
  quiet (u :: r) = negb ((u =? LPAREN) && has_close r) && quiet r.
Proof. reflexivity. Qed.

Lemma subseq_quiet (a b : jsstring) :
  subseq a b -> quiet b = true -> quiet a = true.
Proof.
  induction 1 as [|u a b Hs IH|u a b _ IH]; rewrite ?quiet_cons; intros H; auto.
  - apply andb_prop in H as [H1 H2]. rewrite (IH H2), andb_true_r.
    destruct (u =? LPAREN); [|reflexivity]. simpl in *.
    destruct (has_close a) eqn:Ha; [|reflexivity].
    now rewrite (subseq_has_close _ _ Hs Ha) in H1.
  - apply andb_prop in H as [_ H2]. auto.
Qed.

Lemma subseq_trimStart (s : jsstring) : subseq (trimStart s) s.
Proof.
  induction s as [|u r IH]; simpl; [constructor|].
  destruct (is_white_space u); [now constructor | apply subseq_refl].
Qed.

Lemma subseq_trimEnd (s : jsstring) : subseq (trimEnd s) s.
Proof.
  induction s as [|u r IH]; simpl; [constructor|].
  destruct (trimEnd r) as [|v r'].
  - destruct (is_white_space u); now constructor.
  - now constructor.
Qed.

Lemma subseq_remove_emoji (s : jsstring) : subseq (remove_emoji s) s.
Proof.
  induction s as [| u | u v r IHr IHv] using pair_ind.
  - constructor.
  - apply subseq_refl.
  - change (remove_emoji (u :: v :: r))
      with (if is_high_surrogate u && is_low_surrogate v then
              if is_emoji (code_point u v) then remove_emoji r
              else u :: v :: remove_emoji r
            else u :: remove_emoji (v :: r)).
    destruct (is_high_surrogate u && is_low_surrogate v).
    + destruct (is_emoji (code_point u v)); now repeat constructor.
    + now constructor.
Qed.

Lemma quiet_trim (s : jsstring) : quiet s = true -> quiet (trim s) = true.
Proof.
  intros H. unfold trim.
  apply (subseq_quiet _ _ (subseq_trimEnd _)).
  now apply (subseq_quiet _ _ (subseq_trimStart _)).
Qed.

Lemma outside_cons (u : N) (r : jsstring) :
  outside (u :: r)
  = if (u =? LPAREN) && has_close r then inside r else u :: outside r.
Proof. reflexivity. Qed.

Lemma inside_cons (u : N) (r : jsstring) :
  inside (u :: r) = if u =? RPAREN then outside r else inside r.
Proof. reflexivity. Qed.

(** What the scanner returns holds no further match. *)
Lemma outside_inside_quiet (s : jsstring) :
  (quiet (outside s) = true /\ (has_close (outside s) = true -> has_close s = true))
  /\ (quiet (inside s) = true /\ (has_close (inside s) = true -> has_close s = true)).
Proof.
  induction s as [|u r [[IHo1 IHo2] [IHi1 IHi2]]].
  - repeat split; auto.
  - rewrite outside_cons, inside_cons, (has_close_cons u r). split; split.
    + destruct ((u =? LPAREN) && has_close r) eqn:E; [assumption|].
      rewrite quiet_cons, IHo1, andb_true_r.
      destruct (u =? LPAREN); [|reflexivity]. simpl in *.
      destruct (has_close (outside r)) eqn:Ho; [|reflexivity].
      now rewrite (IHo2 eq_refl) in E.
    + destruct ((u =? LPAREN) && has_close r) eqn:E.
      * intros H. rewrite (IHi2 H). apply orb_true_r.
      * rewrite has_close_cons. intros H.
        apply orb_true_iff in H as [H|H]; [now rewrite H|].
        rewrite (IHo2 H). apply orb_true_r.
    + now destruct (u =? RPAREN).
    + destruct (u =? RPAREN) eqn:E; intros H.
      * rewrite (IHo2 H). apply orb_true_r.
      * rewrite (IHi2 H). apply orb_true_r.
Qed.

Lemma outside_fixed (s : jsstring) : quiet s = true -> outside s = s.
Proof.
  induction s as [|u r IH]; [reflexivity|].
  rewrite quiet_cons, outside_cons. intros H. apply andb_prop in H as [H1 H2].
  apply negb_true_iff in H1. rewrite H1. now rewrite IH.
Qed.

Lemma trimEnd_idem (s : jsstring) : trimEnd (trimEnd s) = trimEnd s.
Proof.
  induction s as [|u r IH]; [reflexivity|]. simpl.
  destruct (trimEnd r) as [|v r'] eqn:E.
  - destruct (is_white_space u) eqn:W; [reflexivity|]. simpl. now rewrite W.
  - rewrite trimEnd_cons_nonempty; rewrite IH; [reflexivity | discriminate].
Qed.

Lemma trimStart_trimEnd_head (s : jsstring) :
  trimStart s = s -> trimStart (trimEnd s) = trimEnd s.
Proof.
  destruct s as [|u r]; [reflexivity|]. simpl.
  destruct (is_white_space u) eqn:W.
  - intros H. exfalso.
    pose proof (subseq_trimStart r) as Hs. rewrite H in Hs.
    assert (Hl : forall a b, subseq a b -> (List.length a <= List.length b)%nat).
    { induction 1; simpl; lia. }
    apply Hl in Hs. simpl in Hs. lia.
  - intros _. destruct (trimEnd r); simpl; now rewrite W.
Qed.

Lemma trimStart_idem (s : jsstring) : trimStart (trimStart s) = trimStart s.
Proof.
  induction s as [|u r IH]; [reflexivity|]. simpl.
  destruct (is_white_space u) eqn:W; [assumption|]. simpl. now rewrite W.
Qed.

Lemma trim_idem (s : jsstring) : trim (trim s) = trim s.
Proof.
  unfold trim.
  rewrite (trimStart_trimEnd_head (trimStart s)) by apply trimStart_idem.
  apply trimEnd_idem.
Qed.

Lemma white_space_not_surrogate (u : N) :
  is_white_space u = true ->
  is_high_surrogate u = false /\ is_low_surrogate u = false.
Proof.
  unfold is_white_space, is_high_surrogate, is_low_surrogate.
  rewrite !orb_true_iff, !andb_true_iff, !andb_false_iff,
    !N.eqb_eq, !N.leb_le, !N.leb_gt.
  lia.
Qed.

Lemma well_formed_cons (u : N) (r : jsstring) :
  well_formed (u :: r)
  = if is_high_surrogate u then
      match r with
      | [] => false
      | lo :: rest => is_low_surrogate lo && well_formed rest
      end
    else negb (is_low_surrogate u) && well_formed r.
Proof. reflexivity. Qed.

Lemma well_formed_white (w : N) (r : jsstring) :
  is_white_space w = true -> well_formed (w :: r) = well_formed r.
Proof.
  intros H. apply white_space_not_surrogate in H as [Hh Hl].
  now rewrite well_formed_cons, Hh, Hl.
Qed.

Lemma low_not_high (u : N) : is_low_surrogate u = true -> is_high_surrogate u = false.
Proof.
  unfold is_high_surrogate, is_low_surrogate.
  rewrite andb_true_iff, andb_false_iff, !N.leb_le, !N.leb_gt. lia.
Qed.

Lemma low_not_paren (u : N) :
  is_low_surrogate u = true -> (u =? LPAREN) = false /\ (u =? RPAREN) = false.
Proof.
  unfold is_low_surrogate, LPAREN, RPAREN.
  rewrite andb_true_iff, !N.leb_le, !N.eqb_neq. lia.
Qed.

Lemma high_not_paren (u : N) :
  is_high_surrogate u = true -> (u =? LPAREN) = false /\ (u =? RPAREN) = false.
Proof.
  unfold is_high_surrogate, LPAREN, RPAREN.
  rewrite andb_true_iff, !N.leb_le, !N.eqb_neq. lia.
Qed.

Lemma paren_not_surrogate (u : N) :
  (u =? LPAREN) = true \/ (u =? RPAREN) = true ->
  is_high_surrogate u = false /\ is_low_surrogate u = false.
Proof.
  unfold is_high_surrogate, is_low_surrogate, LPAREN, RPAREN.
  rewrite !andb_false_iff, !N.leb_gt, !N.eqb_eq. lia.
Qed.

Lemma well_formed_tail_cons (u : N) (r : jsstring) :
  well_formed_tail (u :: r)
  = well_formed (u :: r) || (is_low_surrogate u && well_formed r).
Proof. reflexivity. Qed.

(** Removing the parenthesized parts keeps a string well formed: a match
    starts and ends at a parenthesis, never inside a surrogate pair. *)
Lemma well_formed_outside_inside (s : jsstring) :
  (well_formed s = true -> well_formed (outside s) = true)
  /\ (well_formed_tail s = true -> well_formed (inside s) = true).
Proof.
  induction s as [| u | u v r [IHro IHri] [IHvo IHvi]] using pair_ind.
  - split; reflexivity.
  - split.
    + rewrite outside_cons. simpl (has_close []). now rewrite andb_false_r.
    + rewrite inside_cons. now destruct (u =? RPAREN).
  - split.
    + intros H. rewrite outside_cons.
      destruct ((u =? LPAREN) && has_close (v :: r)) eqn:E.
      * apply andb_prop in E as [E _].
        destruct (paren_not_surrogate u (or_introl E)) as [Hh Hl].
        rewrite well_formed_cons, Hh, Hl in H.
        apply IHvi. rewrite well_formed_tail_cons.
        apply orb_true_iff. left. exact H.
      * rewrite well_formed_cons in H. rewrite well_formed_cons.
        destruct (is_high_surrogate u) eqn:Hh.
        -- apply andb_prop in H as [Hv Hr].
           destruct (low_not_paren v Hv) as [Hv1 _].
           rewrite outside_cons, Hv1. simpl andb. cbv iota.
           now rewrite Hv, IHro.
        -- apply andb_prop in H as [Hl Hr]. now rewrite Hl, IHvo.
    + intros H. rewrite inside_cons. rewrite well_formed_tail_cons in H.
      destruct (u =? RPAREN) eqn:E.
      * destruct (paren_not_surrogate u (or_intror E)) as [Hh Hl].
        rewrite well_formed_cons, Hh, Hl in H.
        rewrite orb_false_r in H. now apply IHvo.
      * apply IHvi. rewrite well_formed_tail_cons.
        apply orb_true_iff in H as [H|H].
        -- rewrite well_formed_cons in H. destruct (is_high_surrogate u).
           ++ rewrite H. apply orb_true_r.
           ++ apply andb_prop in H as [_ H]. now rewrite H.
        -- apply andb_prop in H as [_ H]. now rewrite H.
Qed.

Lemma well_formed_trimStart (s : jsstring) :
  well_formed s = true -> well_formed (trimStart s) = true.
Proof.
  induction s as [|u r IH]; [reflexivity|]. simpl trimStart.
  destruct (is_white_space u) eqn:W; [|auto].
  rewrite (well_formed_white u r W). exact IH.
Qed.

Lemma trimEnd_split (s : jsstring) :
  exists ws, s = trimEnd s ++ ws /\ forallb is_white_space ws = true.
Proof.
  induction s as [|u r (ws & E & W)].
  - now exists [].
  - simpl. destruct (trimEnd r) as [|v r'] eqn:T.
    + destruct (is_white_space u) eqn:Wu.
      * exists (u :: ws). simpl in E. subst r. simpl. now rewrite Wu.
      * exists ws. simpl in *. now subst r.
    + exists ws. split; [|assumption]. simpl in *. congruence.
Qed.

Lemma well_formed_app_white (a ws : jsstring) :
  forallb is_white_space ws = true ->
  well_formed (a ++ ws) = true -> well_formed a = true.
Proof.
  intros W. induction a as [| u | u v r IHr IHv] using pair_ind.
  - reflexivity.
  - simpl app. rewrite !well_formed_cons.
    destruct (is_high_surrogate u).
    + destruct ws as [|w ws']; [discriminate|]. simpl in W.
      apply andb_prop in W as [Ww _].
      apply white_space_not_surrogate in Ww as [_ Ww]. now rewrite Ww.
    + intros H. apply andb_prop in H as [H _]. now rewrite H.
  - change ((u :: v :: r) ++ ws) with (u :: v :: (r ++ ws)).
    rewrite !well_formed_cons with (u := u).
    destruct (is_high_surrogate u).
    + intros H. apply andb_prop in H as [Hv Hr]. now rewrite Hv, IHr.
    + intros H. apply andb_prop in H as [Hu Hr]. rewrite Hu. now apply IHv.
Qed.

Lemma well_formed_trim (s : jsstring) :
  well_formed s = true -> well_formed (trim s) = true.
Proof.
  intros H. apply well_formed_trimStart in H. unfold trim.
  destruct (trimEnd_split (trimStart s)) as (ws & E & W).
  rewrite E in H. now apply (well_formed_app_white _ ws W).
Qed.

Lemma has_emoji_cons (u v : N) (r : jsstring) :
  has_emoji (u :: v :: r)
  = if is_high_surrogate u && is_low_surrogate v
    then is_emoji (code_point u v) || has_emoji r
    else has_emoji (v :: r).
Proof. reflexivity. Qed.

Lemma remove_emoji_cons (u v : N) (r : jsstring) :
  remove_emoji (u :: v :: r)
  = if is_high_surrogate u && is_low_surrogate v then
      if is_emoji (code_point u v) then remove_emoji r
      else u :: v :: remove_emoji r
    else u :: remove_emoji (v :: r).
Proof. reflexivity. Qed.

Lemma has_emoji_plain (u : N) (r : jsstring) :
  is_high_surrogate u = false -> has_emoji (u :: r) = has_emoji r.
Proof.
  intros H. destruct r as [|v r]; [reflexivity|].
  now rewrite has_emoji_cons, H.
Qed.

(** On a well-formed string one pass removes every emoji code point. *)
Lemma has_emoji_remove_emoji (s : jsstring) :
  well_formed s = true -> has_emoji (remove_emoji s) = false.
Proof.
  induction s as [| u | u v r IHr IHv] using pair_ind; try reflexivity.
  rewrite well_formed_cons, remove_emoji_cons.
  destruct (is_high_surrogate u) eqn:Hh.
  - intros H. apply andb_prop in H as [Hv Hr]. rewrite Hv. cbn [andb].
    destruct (is_emoji (code_point u v)) eqn:E; [now apply IHr|].
    now rewrite has_emoji_cons, Hh, Hv, E, IHr.
  - intros H. apply andb_prop in H as [_ H]. cbn [andb].
    rewrite has_emoji_plain by assumption. now apply IHv.
Qed.

Lemma has_emoji_trimStart (s : jsstring) :
  has_emoji s = false -> has_emoji (trimStart s) = false.
Proof.
  induction s as [|u r IH]; [reflexivity|]. simpl trimStart.
  destruct (is_white_space u) eqn:W; [|auto].
  apply white_space_not_surrogate in W as [Hh _].
  rewrite has_emoji_plain by assumption. exact IH.
Qed.

Lemma has_emoji_app_inv (a ws : jsstring) :
  has_emoji (a ++ ws) = false -> has_emoji a = false.
Proof.
  induction a as [| u | u v r IHr IHv] using pair_ind; try reflexivity.
  change ((u :: v :: r) ++ ws) with (u :: v :: (r ++ ws)).
  rewrite !has_emoji_cons.
  destruct (is_high_surrogate u && is_low_surrogate v).
  - intros H. apply orb_false_elim in H as [He Hr]. now rewrite He, IHr.
  - exact IHv.
Qed.

Lemma has_emoji_trim (s : jsstring) :
  has_emoji s = false -> has_emoji (trim s) = false.
Proof.
  intros H. apply has_emoji_trimStart in H. unfold trim.
  destruct (trimEnd_split (trimStart s)) as (ws & E & _).
  rewrite E in H. now apply has_emoji_app_inv in H.
Qed.

(** The clean title is a fixed point of [cleanTitle] exactly when no emoji
    code point is left in it. *)
Lemma cleanTitle_fixed (s : jsstring) :
  has_emoji (cleanTitle s) = false -> cleanTitle (cleanTitle s) = cleanTitle s.
Proof.
  intros He.
  assert (Hq : quiet (cleanTitle s) = true).
  { unfold cleanTitle, remove_parens. apply quiet_trim.
    apply (subseq_quiet _ _ (subseq_remove_emoji _)). apply quiet_trim.
    apply outside_inside_quiet. }
  assert (Ht : trim (cleanTitle s) = cleanTitle s).
  { unfold cleanTitle at 1 2. apply trim_idem. }
  unfold cleanTitle at 1. unfold remove_parens.
  rewrite (outside_fixed _ Hq), Ht, (remove_emoji_fixed _ He). exact Ht.
Qed.

(** C4 (amended).  On every well-formed UTF-16 string, cleaning a title twice
    gives the same result as cleaning it once. *)
Theorem cleanTitle_idempotent (s : jsstring) :
  well_formed s = true -> cleanTitle (cleanTitle s) = cleanTitle s.
Proof.
  intros H. apply cleanTitle_fixed. unfold cleanTitle.
  apply has_emoji_trim, has_emoji_remove_emoji, well_formed_trim.
  now apply well_formed_outside_inside.
Qed.

Lemma cleanTitle_idempotent_witness :
  well_formed (lit "Lunch (sunny, 18C) " ++ [0xD83C; 0xDF24] ++ lit " (x")
  = true
  /\ cleanTitle (cleanTitle (lit "Lunch (sunny, 18C) " ++ [0xD83C; 0xDF24] ++ lit " (x"))
     = cleanTitle (lit "Lunch (sunny, 18C) " ++ [0xD83C; 0xDF24] ++ lit " (x").
Proof.
  split; [reflexivity|].
  apply (cleanTitle_idempotent
           (lit "Lunch (sunny, 18C) " ++ [0xD83C; 0xDF24] ++ lit " (x")).
  reflexivity.
Defined.

(** C4 as stated fails on a string with unpaired surrogates: removing the
    emoji between a lone high and a lone low surrogate joins the two into a
    new emoji, which the second cleaning removes. *)
Lemma cleanTitle_not_idempotent :
  cleanTitle split_pair = [0xD83C; 0xDF00]
  /\ cleanTitle (cleanTitle split_pair) = []
  /\ cleanTitle (cleanTitle split_pair) <> cleanTitle split_pair.
Proof. repeat split; try reflexivity. vm_compute. discriminate. Qed.

End Idempotence.

(** ** The sync cycle *)

Section Cycle.
Local Open Scope Z_scope.

Variable env : Env.

(** The [try] block when the fetch succeeds: the token is stored, then the
    loop runs over the returned events. *)
Lemma try_block_fetch_ok (tok : JsValue) (st : State) (res : ListResponse) :
  fetch_answer env tok st = inr res ->
  try_block env (default_null tok) st
  = for_of (process_event env (cycle_timeMax env st)) (events_of res)
      (after_fetch env tok st (nextSyncToken res)).
Proof.
  unfold fetch_answer, cycle_params, cycle_timeMax. intros H.
  cbv beta iota delta [try_block bind new_Date calendar_events_list emit
    set_lastSyncToken tick]. cbn [calls lastSyncToken trace].
  rewrite H. unfold events_of, after_fetch, cycle_params, cycle_timeMax.
  cbn [calls lastSyncToken trace]. rewrite <- app_assoc.
  destruct (items res) as [[|e l]|]; reflexivity.
Qed.

(** The [try] block when the fetch throws. *)
Lemma try_block_fetch_error (tok : JsValue) (st : State) (e : JsError) :
  fetch_answer env tok st = inl e ->
  try_block env (default_null tok) st = (fetch_failed env tok st, inl e).
Proof.
  unfold fetch_answer, cycle_params, cycle_timeMax. intros H.
  cbv beta iota delta [try_block bind new_Date calendar_events_list emit tick].
  cbn [calls lastSyncToken trace]. now rewrite H.
Qed.

Lemma jsstring_eqb_eq (a b : jsstring) : jsstring_eqb a b = true <-> a = b.
Proof.
  revert b. induction a as [|x a IH]; intros [|y b]; simpl; split;
    try congruence; try discriminate.
  - intros H. apply andb_prop in H as [H1 H2]. apply N.eqb_eq in H1.
    apply IH in H2. congruence.
  - intros H. injection H as -> ->. rewrite N.eqb_refl. now apply IH.
Qed.

Lemma ceil_div_above (a : Z) :
  a > 14 * MS_PER_DAY -> (Math_ceil_div a MS_PER_DAY >? 14) = true.
Proof.
  intros H. unfold Math_ceil_div. apply Z.gtb_lt.
  assert (Hq : (- a) / MS_PER_DAY < -14).
  { apply Z.div_lt_upper_bound; unfold MS_PER_DAY in *; lia. }
  lia.
Qed.

(** Beyond the horizon the lookup answers at once, without calling the
    weather provider. *)
Lemma getWeatherInfo_far (d : Z) (st : State) :
  d - clock env (calls st) > 14 * MS_PER_DAY ->
  getWeatherInfo env d st
  = ({| lastSyncToken := lastSyncToken st;
        calls := S (calls st);
        trace := trace st ++ [GetWeatherInfo d] |}, inr FORECAST_UNAVAILABLE).
Proof.
  intros H. apply ceil_div_above in H.
  cbv beta iota delta [getWeatherInfo bind try_catch emit new_Date tick].
  cbn [calls lastSyncToken trace]. now rewrite H.
Qed.

(** The lookup always returns a text: every failure inside it is caught.
    It leaves the token alone and calls neither [list] nor [patch]. *)
Lemma getWeatherInfo_returns (d : Z) (st : State) :
  exists st' w rest,
    getWeatherInfo env d st = (st', inr w)
    /\ lastSyncToken st' = lastSyncToken st
    /\ trace st' = trace st ++ GetWeatherInfo d :: rest
    /\ patches rest = [] /\ fetches rest = [].
Proof.
  cbv beta iota zeta delta [getWeatherInfo bind try_catch emit new_Date
    axios_get_forecast tick ret throw].
  cbn [calls lastSyncToken trace].
  destruct (Math_ceil_div (d - clock env (calls st)) MS_PER_DAY >? 14).
  { exists {| lastSyncToken := lastSyncToken st; calls := S (calls st);
              trace := trace st ++ [GetWeatherInfo d] |}, FORECAST_UNAVAILABLE, [].
    repeat split. }
  match goal with
  | |- context [axios_get env ?n ?x] => destruct (axios_get env n x) as [e|days]
  end.
  { eexists _, _, [_; _]. cbn [calls lastSyncToken trace].
    rewrite <- !app_assoc. repeat split. }
  match goal with
  | |- context [find ?f days] => destruct (find f days) as [forecast|]
  end.
  2:{ eexists _, _, [_]. cbn [calls lastSyncToken trace].
      rewrite <- !app_assoc. repeat split. }
  match goal with
  | |- context [find ?f (hour forecast)] =>
      destruct (find f (hour forecast)) as [h|]
  end.
  { eexists _, _, [_]. cbn [calls lastSyncToken trace].
    rewrite <- !app_assoc. repeat split. }
  destruct (hd_error (hour forecast)) as [h|].
  { eexists _, _, [_]. cbn [calls lastSyncToken trace].
    rewrite <- !app_assoc. repeat split. }
  eexists _, _, [_; _]. cbn [calls lastSyncToken trace].
  rewrite <- !app_assoc. repeat split.
Qed.

Lemma calendar_events_patch_eq (id title : jsstring) (st : State) :
  calendar_events_patch env id title st
  = (after_patch st id title,
     match events_patch env (calls st) id title with
     | Some e => inl e
     | None => inr tt
     end).
Proof. reflexivity. Qed.

(** An event beyond the bound is skipped with no effect at all. *)
Lemma process_event_skip (tmax : Z) (ev : Event) (st : State) :
  eventDate ev > tmax -> process_event env tmax ev st = (st, inr tt).
Proof.
  intros H. unfold process_event.
  now rewrite (proj2 (Z.gtb_lt _ _)) by lia.
Qed.

(** An event within the bound: one lookup, then a patch exactly when the
    new title differs from the summary. *)
Lemma process_event_run (tmax : Z) (ev : Event) (st st1 : State) (w : jsstring) :
  eventDate ev <= tmax ->
  getWeatherInfo env (eventDate ev) st = (st1, inr w) ->
  process_event env tmax ev st
  = if jsstring_eqb (newTitle (cleanTitle (summary ev)) w) (summary ev)
    then (st1, inr tt)
    else calendar_events_patch env (eventId ev)
           (newTitle (cleanTitle (summary ev)) w) st1.
Proof.
  intros H G. unfold process_event.
  destruct (eventDate ev >? tmax) eqn:E; [apply Z.gtb_lt in E; lia|].
  unfold bind at 1. rewrite G.
  now destruct (jsstring_eqb _ (summary ev)).
Qed.

Lemma process_event_token (tmax : Z) (ev : Event) (st st' : State)
    (r : JsError + unit) :
  process_event env tmax ev st = (st', r) ->
  lastSyncToken st' = lastSyncToken st.
Proof.
  destruct (Z_gt_le_dec (eventDate ev) tmax) as [H|H].
  - rewrite process_event_skip by assumption. now intros [= <- _].
  - destruct (getWeatherInfo_returns (eventDate ev) st)
      as (st1 & w & rest & G & T & _).
    rewrite (process_event_run _ _ _ _ _ H G).
    destruct (jsstring_eqb _ _).
    + intros [= <- _]. exact T.
    + rewrite calendar_events_patch_eq. intros [= <- _]. exact T.
Qed.

Lemma for_of_cons {A} (body : A -> M unit) (x : A) (l : list A) (st : State) :
  for_of body (x :: l) st
  = match body x st with
    | (st', inr _) => for_of body l st'
    | (st', inl e) => (st', inl e)
    end.
Proof. reflexivity. Qed.

(** The loop never writes [lastSyncToken]. *)
Lemma for_of_token (tmax : Z) (l : list Event) (st st' : State)
    (r : JsError + unit) :
  for_of (process_event env tmax) l st = (st', r) ->
  lastSyncToken st' = lastSyncToken st.
Proof.
  revert st. induction l as [|ev l IH]; intros st.
  - now intros [= <- _].
  - rewrite for_of_cons.
    destruct (process_event env tmax ev st) as [st1 [e|[]]] eqn:P.
    + intros [= <- _]. now apply process_event_token in P.
    + intros H. apply IH in H. apply process_event_token in P. congruence.
Qed.

Lemma process_event_trace (tmax : Z) (ev : Event) (st st' : State)
    (r : JsError + unit) :
  process_event env tmax ev st = (st', r) ->
  exists rest, trace st' = trace st ++ rest.
Proof.
  destruct (Z_gt_le_dec (eventDate ev) tmax) as [H|H].
  - rewrite process_event_skip by assumption. intros [= <- _].
    exists []. now rewrite app_nil_r.
  - destruct (getWeatherInfo_returns (eventDate ev) st)
      as (st1 & w & rest & G & _ & T & _).
    rewrite (process_event_run _ _ _ _ _ H G).
    destruct (jsstring_eqb _ _).
    + intros [= <- _]. eauto.
    + rewrite calendar_events_patch_eq. intros [= <- _].
      cbn [after_patch trace]. rewrite T, <- app_assoc. eauto.
Qed.

Lemma for_of_trace (tmax : Z) (l : list Event) (st st' : State)
    (r : JsError + unit) :
  for_of (process_event env tmax) l st = (st', r) ->
  exists rest, trace st' = trace st ++ rest.
Proof.
  revert st. induction l as [|ev l IH]; intros st.
  - intros [= <- _]. exists []. now rewrite app_nil_r.
  - rewrite for_of_cons.
    destruct (process_event env tmax ev st) as [st1 [e|[]]] eqn:P;
      apply process_event_trace in P as [r1 P].
    + intros [= <- _]. eauto.
    + intros H. apply IH in H as [r2 H]. rewrite H, P, <- app_assoc. eauto.
Qed.


(** The loop stops at the first event whose processing throws. *)
Lemma for_of_app_throw (tmax : Z) (pre post : list Event) (ev : Event)
    (st st1 st2 : State) (err : JsError) :
  for_of (process_event env tmax) pre st = (st1, inr tt) ->
  process_event env tmax ev st1 = (st2, inl err) ->
  for_of (process_event env tmax) (pre ++ ev :: post) st = (st2, inl err).
Proof.
  revert st. induction pre as [|x pre IH]; intros st.
  - intros [= ->] P. cbn [app]. now rewrite for_of_cons, P.
  - cbn [app]. rewrite !for_of_cons.
    destruct (process_event env tmax x st) as [sx [e|[]]]; [discriminate|].
    apply IH.
Qed.

(** Only the patch call can make the loop body throw. *)
Lemma process_event_throw (tmax : Z) (ev : Event) (st st2 : State)
    (err : JsError) :
  process_event env tmax ev st = (st2, inl err) ->
  exists st1 w,
    getWeatherInfo env (eventDate ev) st = (st1, inr w)
    /\ st2 = after_patch st1 (eventId ev) (newTitle (cleanTitle (summary ev)) w)
    /\ events_patch env (calls st1) (eventId ev)
         (newTitle (cleanTitle (summary ev)) w) = Some err.
Proof.
  destruct (Z_gt_le_dec (eventDate ev) tmax) as [H|H].
  - rewrite process_event_skip by assumption. discriminate.
  - destruct (getWeatherInfo_returns (eventDate ev) st)
      as (st1 & w & rest & G & _).
    rewrite (process_event_run _ _ _ _ _ H G).
    destruct (jsstring_eqb _ _); [discriminate|].
    rewrite calendar_events_patch_eq.
    destruct (events_patch env (calls st1) _ _) as [e|] eqn:P; [|discriminate].
    intros [= <- <-]. now exists st1, w.
Qed.

Lemma updateCalendarEvents_S (fuel : nat) (tok : JsValue) (st : State) :
  updateCalendarEvents (S fuel) env tok st
  = match try_block env (default_null tok) st with
    | (st', inr _) => Some st'
    | (st', inl error) =>
        if is_410 error then
          updateCalendarEvents fuel env JsUndefined
            (run (set_lastSyncToken JsNull) st')
        else Some (run (emit (ConsoleError UPDATE_ERROR error)) st')
    end.
Proof. reflexivity. Qed.

(** A cycle whose fetch succeeded: the [try] block ends with the fetched
    next-token in [lastSyncToken], and so does the cycle unless a patch
    threw an error with code 410. *)
Lemma cycle_after_fetch (tok : JsValue) (st : State) (res : ListResponse) :
  fetch_answer env tok st = inr res ->
  exists st1 r rest,
    try_block env (default_null tok) st = (st1, r)
    /\ lastSyncToken st1 = nextSyncToken res
    /\ trace st1 = trace (after_fetch env tok st (nextSyncToken res)) ++ rest
    /\ ((forall e, r = inl e -> is_410 e = false) ->
        forall fuel, exists st',
          updateCalendarEvents (S fuel) env tok st = Some st'
          /\ lastSyncToken st' = nextSyncToken res).
Proof.
  intros F. rewrite (try_block_fetch_ok _ _ _ F).
  destruct (for_of _ (events_of res) _) as [st1 r] eqn:L.
  pose proof (for_of_token _ _ _ _ _ L) as T.
  destruct (for_of_trace _ _ _ _ _ L) as [rest R].
  exists st1, r, rest. repeat split; try assumption.
  intros Hr fuel. rewrite updateCalendarEvents_S, (try_block_fetch_ok _ _ _ F), L.
  destruct r as [e|[]].
  - rewrite (Hr e eq_refl). eexists. split; [reflexivity|]. exact T.
  - eexists. split; [reflexivity|]. exact T.
Qed.

(** The first call of every cycle is the fetch with [cycle_params]. *)
Lemma try_block_first_call (tok : JsValue) (st : State) :
  exists rest,
    trace (run (try_block env (default_null tok)) st)
    = trace st ++ EventsList (cycle_params env tok st) :: rest.
Proof.
  unfold run. destruct (fetch_answer env tok st) as [e|res] eqn:F.
  - rewrite (try_block_fetch_error _ _ _ F). now exists [].
  - destruct (cycle_after_fetch _ _ _ F) as (st1 & r & rest & E & _ & T & _).
    rewrite E. cbn [fst]. rewrite T. cbn [after_fetch trace].
    rewrite <- app_assoc. cbn [app]. eexists. reflexivity.
Qed.

(** A falsy argument is the same as no argument. *)
Lemma updateCalendarEvents_falsy (fuel : nat) (v : JsValue) (st : State) :
  truthy v = false ->
  updateCalendarEvents fuel env v st = updateCalendarEvents fuel env JsNull st.
Proof.
  intros H. destruct fuel as [|fuel]; [reflexivity|].
  destruct v as [| |[|u s]]; try reflexivity; discriminate.
Qed.

Lemma cycle_params_falsy (v : JsValue) (st : State) :
  truthy v = false -> cycle_params env v st = full_range env st.
Proof. destruct v as [| |[|u s]]; try reflexivity; discriminate. Qed.

Lemma patches_app (a b : list Effect) : patches (a ++ b) = patches a ++ patches b.
Proof. apply filter_app. Qed.

Lemma ends_with_app (a suffix : jsstring) : ends_with (a ++ suffix) suffix = true.
Proof.
  unfold ends_with. rewrite length_app, Nat.add_sub.
  rewrite skipn_app, Nat.sub_diag, skipn_all. cbn [app skipn].
  now apply jsstring_eqb_eq.
Qed.

(** C5 (amended).  When the fetch of a cycle succeeds, [lastSyncToken] is
    assigned the next-token of the response right after the fetch, whatever
    the number of events, and the [try] block ends with it; with no event
    the cycle ends right there, nothing processed; and the cycle ends with
    that token whenever the loop finishes or stops on an error whose code is
    not 410.  A patch error of code 410 is not part of this statement. *)
Theorem token_captured_on_success (tok : JsValue) (st : State) (res : ListResponse) :
  fetch_answer env tok st = inr res ->
  (exists st1 r rest,
     try_block env (default_null tok) st = (st1, r)
     /\ lastSyncToken st1 = nextSyncToken res
     /\ trace st1 = trace st ++ EventsList (cycle_params env tok st)
                              :: SetLastSyncToken (nextSyncToken res) :: rest
     /\ ((forall e, r = inl e -> is_410 e = false) ->
         forall fuel, exists st',
           updateCalendarEvents (S fuel) env tok st = Some st'
           /\ lastSyncToken st' = nextSyncToken res))
  /\ (events_of res = [] ->
      forall fuel,
        updateCalendarEvents (S fuel) env tok st
        = Some (after_fetch env tok st (nextSyncToken res))).
Proof.
  intros F. split.
  - destruct (cycle_after_fetch _ _ _ F) as (st1 & r & rest & E & T & R & C).
    exists st1, r, rest. repeat split; try assumption.
    rewrite R. cbn [after_fetch trace]. now rewrite <- app_assoc.
  - intros Hn fuel.
    now rewrite updateCalendarEvents_S, (try_block_fetch_ok _ _ _ F), Hn.
Qed.

(** C7.  When the fetch of a cycle throws an error whose code is not 410,
    the cycle returns after logging the error: its only effects are the
    fetch and the log line (no lookup, no patch), and [lastSyncToken] is
    what it was before the cycle. *)
Theorem fetch_error_aborts_cycle (tok : JsValue) (st : State) (e : JsError)
    (fuel : nat) :
  fetch_answer env tok st = inl e -> is_410 e = false ->
  updateCalendarEvents (S fuel) env tok st
  = Some {| lastSyncToken := lastSyncToken st;
            calls := S (S (S (calls st)));
            trace := trace st ++ [EventsList (cycle_params env tok st);
                                  ConsoleError UPDATE_ERROR e] |}.
Proof.
  intros F N. rewrite updateCalendarEvents_S, (try_block_fetch_error _ _ _ F), N.
  unfold run, emit, fetch_failed. cbn [fst calls lastSyncToken trace].
  now rewrite <- app_assoc.
Qed.

(** C3 (amended).  When the fetch of a cycle throws an error with code 410,
    [lastSyncToken] is set to [null] and the function calls itself without
    a token: the retry sends a full-range request.  If the retry's fetch
    succeeds the token is set from its response; if it throws an error whose
    code is not 410 the error is logged, the token stays [null] and nothing
    more is tried; if it throws 410 again the same recovery is run again. *)
Theorem token_invalidation_recovery (tok : JsValue) (st : State) (e : JsError) :
  fetch_answer env tok st = inl e -> is_410 e = true ->
  (forall fuel,
     updateCalendarEvents (S fuel) env tok st
     = updateCalendarEvents fuel env JsUndefined (retry_state env tok st))
  /\ cycle_params env JsUndefined (retry_state env tok st)
     = full_range env (retry_state env tok st)
  /\ (forall res,
        fetch_answer env JsUndefined (retry_state env tok st) = inr res ->
        exists st1 r rest,
          try_block env JsNull (retry_state env tok st) = (st1, r)
          /\ lastSyncToken st1 = nextSyncToken res
          /\ trace st1
             = trace st ++ [EventsList (cycle_params env tok st);
                            SetLastSyncToken JsNull;
                            EventsList (full_range env (retry_state env tok st));
                            SetLastSyncToken (nextSyncToken res)] ++ rest
          /\ ((forall e', r = inl e' -> is_410 e' = false) ->
              forall fuel, exists st',
                updateCalendarEvents (S (S fuel)) env tok st = Some st'
                /\ lastSyncToken st' = nextSyncToken res))
  /\ (forall e' fuel,
        fetch_answer env JsUndefined (retry_state env tok st) = inl e' ->
        is_410 e' = false ->
        updateCalendarEvents (S (S fuel)) env tok st
        = Some {| lastSyncToken := JsNull;
                  calls := 6 + calls st;
                  trace := trace st
                    ++ [EventsList (cycle_params env tok st);
                        SetLastSyncToken JsNull;
                        EventsList (full_range env (retry_state env tok st));
                        ConsoleError UPDATE_ERROR e'] |})
  /\ (forall e' fuel,
        fetch_answer env JsUndefined (retry_state env tok st) = inl e' ->
        is_410 e' = true ->
        updateCalendarEvents (S (S fuel)) env tok st
        = updateCalendarEvents fuel env JsUndefined
            (retry_state env JsUndefined (retry_state env tok st))).
Proof.
  intros F G.
  assert (Step : forall fuel,
            updateCalendarEvents (S fuel) env tok st
            = updateCalendarEvents fuel env JsUndefined (retry_state env tok st)).
  { intros fuel.
    rewrite updateCalendarEvents_S, (try_block_fetch_error _ _ _ F), G.
    unfold run, set_lastSyncToken, fetch_failed, retry_state.
    cbn [fst calls lastSyncToken trace]. now rewrite <- app_assoc. }
  split; [exact Step|]. split; [reflexivity|]. split; [|split].
  - intros res F'.
    destruct (cycle_after_fetch _ _ _ F') as (st1 & r & rest & E & T & R & C).
    exists st1, r, rest. repeat split; try assumption.
    + rewrite R. cbn [after_fetch retry_state trace].
      now rewrite <- !app_assoc.
    + intros Hr fuel. rewrite Step. now apply C.
  - intros e' fuel F' N. rewrite Step.
    rewrite updateCalendarEvents_S, (try_block_fetch_error _ _ _ F'), N.
    unfold run, emit, fetch_failed, retry_state.
    cbn [fst calls lastSyncToken trace]. now rewrite <- !app_assoc.
  - intros e' fuel F' N. rewrite Step.
    rewrite updateCalendarEvents_S, (try_block_fetch_error _ _ _ F'), N.
    unfold run, set_lastSyncToken, fetch_failed, retry_state.
    cbn [fst calls lastSyncToken trace]. now rewrite <- !app_assoc.
Qed.

(** C2 (amended).  When the patch of an event throws, the loop stops at
    that patch: the [try] block ends right after it, whatever events follow
    in the response, so none of them is looked up or patched by that pass.
    When the error's code is not 410 the cycle logs it once and returns, the
    later events not processed and [lastSyncToken] still holding the fetched
    next-token.  What the [catch] block does with a patch error of code 410
    is not part of this statement. *)
Theorem patch_failure_stops_cycle (tok : JsValue) (st : State)
    (res : ListResponse) (pre post : list Event) (ev : Event)
    (st1 st2 : State) (err : JsError) :
  fetch_answer env tok st = inr res ->
  events_of res = pre ++ ev :: post ->
  for_of (process_event env (cycle_timeMax env st)) pre
    (after_fetch env tok st (nextSyncToken res)) = (st1, inr tt) ->
  process_event env (cycle_timeMax env st) ev st1 = (st2, inl err) ->
  try_block env (default_null tok) st = (st2, inl err)
  /\ (exists stw w,
        getWeatherInfo env (eventDate ev) st1 = (stw, inr w)
        /\ events_patch env (calls stw) (eventId ev)
             (newTitle (cleanTitle (summary ev)) w) = Some err
        /\ trace st2
           = trace stw ++ [EventsPatch (eventId ev)
                             (newTitle (cleanTitle (summary ev)) w)])
  /\ lastSyncToken st2 = nextSyncToken res
  /\ (is_410 err = false ->
      forall fuel,
        updateCalendarEvents (S fuel) env tok st
        = Some {| lastSyncToken := nextSyncToken res;
                  calls := calls st2;
                  trace := trace st2 ++ [ConsoleError UPDATE_ERROR err] |}).
Proof.
  intros F Hl Hpre Hev.
  pose proof (for_of_app_throw _ _ post _ _ _ _ _ Hpre Hev) as L.
  assert (T : try_block env (default_null tok) st = (st2, inl err)).
  { now rewrite (try_block_fetch_ok _ _ _ F), Hl. }
  assert (K : lastSyncToken st2 = nextSyncToken res).
  { apply for_of_token in L. exact L. }
  split; [exact T|]. split; [|split; [exact K|]].
  - apply process_event_throw in Hev as (stw & w & Gw & -> & P).
    now exists stw, w.
  - intros N fuel. rewrite updateCalendarEvents_S, T, N.
    unfold run, emit. cbn [fst]. now rewrite K.
Qed.

(** C6.  For an event within the bound, after its weather lookup: if the
    new title equals the summary the body ends without a patch call;
    otherwise exactly one patch call is made, for that event and with the
    new title. *)
Theorem no_redundant_patch (tmax : Z) (ev : Event) (st st1 : State)
    (w : jsstring) :
  eventDate ev <= tmax ->
  getWeatherInfo env (eventDate ev) st = (st1, inr w) ->
  (newTitle (cleanTitle (summary ev)) w = summary ev ->
   process_event env tmax ev st = (st1, inr tt)
   /\ patches (trace st1) = patches (trace st))
  /\ (newTitle (cleanTitle (summary ev)) w <> summary ev ->
      fst (process_event env tmax ev st)
      = after_patch st1 (eventId ev) (newTitle (cleanTitle (summary ev)) w)
      /\ patches (trace (fst (process_event env tmax ev st)))
         = patches (trace st)
           ++ [EventsPatch (eventId ev) (newTitle (cleanTitle (summary ev)) w)]).
Proof.
  intros H G.
  assert (P : patches (trace st1) = patches (trace st)).
  { destruct (getWeatherInfo_returns (eventDate ev) st)
      as (st1' & w' & rest & G' & _ & T & Pr & _).
    rewrite G in G'. injection G' as <- <-.
    rewrite T, patches_app. cbn [patches filter is_patch].
    fold (patches rest). rewrite Pr. apply app_nil_r. }
  rewrite (process_event_run _ _ _ _ _ H G). split.
  - intros E. apply jsstring_eqb_eq in E. rewrite E. now split.
  - intros E. destruct (jsstring_eqb _ _) eqn:B.
    + apply jsstring_eqb_eq in B. contradiction.
    + rewrite calendar_events_patch_eq. cbn [fst]. split; [reflexivity|].
      cbn [after_patch trace]. rewrite patches_app, P. reflexivity.
Qed.


(** C10.  When the fetch succeeds with an absent or empty next-token, that
    falsy value is what [lastSyncToken] holds at the end of the [try] block
    (and of the cycle, unless a patch threw 410).  From any state holding it,
    [watchForChanges] runs as a cycle without a token, and its first call is
    a fetch with explicit time bounds and no token. *)
Theorem falsy_token_means_full_range (tok : JsValue) (st : State)
    (res : ListResponse) :
  fetch_answer env tok st = inr res ->
  truthy (nextSyncToken res) = false ->
  lastSyncToken (run (try_block env (default_null tok)) st) = nextSyncToken res
  /\ ((forall e, snd (try_block env (default_null tok) st) = inl e ->
                 is_410 e = false) ->
      forall fuel, exists st',
        updateCalendarEvents (S fuel) env tok st = Some st'
        /\ lastSyncToken st' = nextSyncToken res)
  /\ (forall st',
        lastSyncToken st' = nextSyncToken res ->
        (forall fuel,
           watchForChanges fuel env st' = updateCalendarEvents fuel env JsNull st')
        /\ exists rest,
             trace (run (try_block env (default_null (lastSyncToken st'))) st')
             = trace st' ++ EventsList (full_range env st') :: rest).
Proof.
  intros F Hf.
  destruct (cycle_after_fetch _ _ _ F) as (st1 & r & rest & E & T & _ & C).
  unfold run. rewrite E. cbn [fst snd]. split; [exact T|]. split.
  - intros Hr. apply C. intros e ->. now apply Hr.
  - intros st' T'. split.
    + intros fuel. unfold watchForChanges.
      apply updateCalendarEvents_falsy. now rewrite T'.
    + destruct (try_block_first_call (lastSyncToken st') st') as [rest' R].
      exists rest'. unfold run in R. rewrite R, cycle_params_falsy; [reflexivity|].
      now rewrite T'.
Qed.

(** C8 (amended).  A lookup for a time more than 14 days after now returns
    the text ["(forecast unavailable)"] without calling the weather provider
    and without throwing, and the title composed from it ends in that text. *)
Theorem far_horizon_forecast_unavailable (d : Z) (st : State) (c : jsstring) :
  d - clock env (calls st) > 14 * MS_PER_DAY ->
  getWeatherInfo env d st
  = ({| lastSyncToken := lastSyncToken st;
        calls := S (calls st);
        trace := trace st ++ [GetWeatherInfo d] |}, inr FORECAST_UNAVAILABLE)
  /\ newTitle c FORECAST_UNAVAILABLE = c ++ lit " (forecast unavailable)"
  /\ ends_with (newTitle c FORECAST_UNAVAILABLE) (lit "(forecast unavailable)")
     = true.
Proof.
  intros H. split; [now apply getWeatherInfo_far|]. split; [reflexivity|].
  change (newTitle c FORECAST_UNAVAILABLE)
    with (c ++ [SPACE] ++ lit "(forecast unavailable)").
  rewrite app_assoc. apply ends_with_app.
Qed.

End Cycle.

(** ** The properties on concrete runs *)

Section Runs.
Local Open Scope Z_scope.

Lemma token_captured_on_success_witness :
  fetch_answer plain_env JsNull initial_state
  = inr {| items := Some []; nextSyncToken := JsString (lit "t1") |}
  /\ updateCalendarEvents 1 plain_env JsNull initial_state
     = Some (after_fetch plain_env JsNull initial_state (JsString (lit "t1"))).
Proof.
  assert (F : fetch_answer plain_env JsNull initial_state
              = inr {| items := Some []; nextSyncToken := JsString (lit "t1") |})
    by reflexivity.
  split; [exact F|].
  exact (proj2 (token_captured_on_success plain_env JsNull initial_state _ F)
           eq_refl 0%nat).
Defined.

Lemma fetch_error_aborts_cycle_witness :
  fetch_answer env_list_fails (JsString (lit "old")) (with_token (lit "old"))
  = inl (http_error 500)
  /\ is_410 (http_error 500) = false
  /\ updateCalendarEvents 1 env_list_fails (JsString (lit "old"))
       (with_token (lit "old"))
     = Some {| lastSyncToken := JsString (lit "old");
               calls := 3;
               trace := [EventsList {| timeMin := None; timeMax := None;
                                       syncToken := Some (lit "old") |};
                         ConsoleError UPDATE_ERROR (http_error 500)] |}.
Proof.
  split; [reflexivity|]. split; [reflexivity|].
  exact (fetch_error_aborts_cycle env_list_fails (JsString (lit "old"))
           (with_token (lit "old")) (http_error 500) 0 eq_refl eq_refl).
Defined.

Lemma token_invalidation_recovery_witness :
  fetch_answer env_token_expired (JsString (lit "old")) (with_token (lit "old"))
  = inl (http_error 410)
  /\ is_410 (http_error 410) = true
  /\ updateCalendarEvents 2 env_token_expired (JsString (lit "old"))
       (with_token (lit "old"))
     = updateCalendarEvents 1 env_token_expired JsUndefined
         (retry_state env_token_expired (JsString (lit "old"))
            (with_token (lit "old")))
  /\ cycle_params env_token_expired JsUndefined
       (retry_state env_token_expired (JsString (lit "old"))
          (with_token (lit "old")))
     = {| timeMin := Some (T0 + 3000); timeMax := Some (T0 + 4000 + 7 * MS_PER_DAY);
          syncToken := None |}.
Proof.
  split; [reflexivity|]. split; [reflexivity|].
  destruct (token_invalidation_recovery env_token_expired (JsString (lit "old"))
              (with_token (lit "old")) (http_error 410) eq_refl eq_refl)
    as (Step & Params & _).
  split; [exact (Step 1%nat) | exact Params].
Defined.

Lemma patch_failure_stops_cycle_witness :
  fetch_answer env_patch_fails JsNull initial_state
  = inr {| items := Some [ev1; ev2]; nextSyncToken := JsString (lit "t1") |}
  /\ process_event env_patch_fails (cycle_timeMax env_patch_fails initial_state)
       ev1 (after_fetch env_patch_fails JsNull initial_state (JsString (lit "t1")))
     = (fst (process_event env_patch_fails
               (cycle_timeMax env_patch_fails initial_state) ev1
               (after_fetch env_patch_fails JsNull initial_state
                  (JsString (lit "t1")))),
        inl (http_error 500))
  /\ is_410 (http_error 500) = false
  /\ updateCalendarEvents 1 env_patch_fails JsNull initial_state
     = Some {| lastSyncToken := JsString (lit "t1");
               calls := 6;
               trace := [EventsList {| timeMin := Some T0;
                                       timeMax := Some (T0 + 1000 + 7 * MS_PER_DAY);
                                       syncToken := None |};
                         SetLastSyncToken (JsString (lit "t1"));
                         GetWeatherInfo (T0 + 3600000);
                         AxiosGet 2;
                         ConsoleError WEATHER_ERROR (http_error 503);
                         EventsPatch (lit "e1") (lit "Standup (weather unavailable)");
                         ConsoleError UPDATE_ERROR (http_error 500)] |}.
Proof.
  split; [reflexivity|]. split; [reflexivity|]. split; [reflexivity|].
  exact (proj2 (proj2 (proj2
           (patch_failure_stops_cycle env_patch_fails JsNull initial_state
              {| items := Some [ev1; ev2]; nextSyncToken := JsString (lit "t1") |}
              [] [ev2] ev1 _ _ (http_error 500)
              eq_refl eq_refl eq_refl eq_refl))) eq_refl 0%nat).
Defined.

Lemma no_redundant_patch_witness :
  eventDate ev_done <= T0 + 7 * MS_PER_DAY
  /\ getWeatherInfo (env_sunny JsNull) (eventDate ev_done) initial_state
     = ({| lastSyncToken := JsNull; calls := 2;
           trace := [GetWeatherInfo (T0 + 3600000); AxiosGet 2] |},
        inr (lit "(sunny, 19" ++ DEGREE :: lit "C)"))
  /\ newTitle (cleanTitle (summary ev_done)) (lit "(sunny, 19" ++ DEGREE :: lit "C)")
     = summary ev_done
  /\ process_event (env_sunny JsNull) (T0 + 7 * MS_PER_DAY) ev_done initial_state
     = ({| lastSyncToken := JsNull; calls := 2;
           trace := [GetWeatherInfo (T0 + 3600000); AxiosGet 2] |}, inr tt).
Proof.
  assert (H : eventDate ev_done <= T0 + 7 * MS_PER_DAY) by (vm_compute; discriminate).
  split; [exact H|]. split; [reflexivity|]. split; [reflexivity|].
  exact (proj1 (proj1 (no_redundant_patch (env_sunny JsNull) (T0 + 7 * MS_PER_DAY)
                         ev_done initial_state _ _ H eq_refl) eq_refl)).
Defined.


Lemma falsy_token_means_full_range_witness :
  fetch_answer (env_sunny (JsString [])) (JsString (lit "old"))
    (with_token (lit "old"))
  = inr {| items := Some [ev_done; ev1; ev_far]; nextSyncToken := JsString [] |}
  /\ truthy (JsString []) = false
  /\ lastSyncToken (run (try_block (env_sunny (JsString [])) (JsString (lit "old")))
                      (with_token (lit "old"))) = JsString []
  /\ (forall fuel,
        watchForChanges fuel (env_sunny (JsString []))
          {| lastSyncToken := JsString []; calls := 8; trace := [] |}
        = updateCalendarEvents fuel (env_sunny (JsString [])) JsNull
            {| lastSyncToken := JsString []; calls := 8; trace := [] |}).
Proof.
  split; [reflexivity|]. split; [reflexivity|].
  destruct (falsy_token_means_full_range (env_sunny (JsString []))
              (JsString (lit "old")) (with_token (lit "old"))
              {| items := Some [ev_done; ev1; ev_far]; nextSyncToken := JsString [] |}
              eq_refl eq_refl) as (T & _ & N).
  split; [exact T|].
  exact (proj1 (N {| lastSyncToken := JsString []; calls := 8; trace := [] |}
                  eq_refl)).
Defined.

Lemma far_horizon_forecast_unavailable_witness :
  (T0 + 20 * MS_PER_DAY) - clock plain_env (calls initial_state) > 14 * MS_PER_DAY
  /\ getWeatherInfo plain_env (T0 + 20 * MS_PER_DAY) initial_state
     = ({| lastSyncToken := JsNull; calls := 1;
           trace := [GetWeatherInfo (T0 + 20 * MS_PER_DAY)] |},
        inr FORECAST_UNAVAILABLE)
  /\ newTitle (lit "Standup") FORECAST_UNAVAILABLE
     = lit "Standup (forecast unavailable)".
Proof.
  assert (H : (T0 + 20 * MS_PER_DAY) - clock plain_env (calls initial_state)
              > 14 * MS_PER_DAY) by reflexivity.
  split; [exact H|].
  destruct (far_horizon_forecast_unavailable plain_env (T0 + 20 * MS_PER_DAY)
              initial_state (lit "Standup") H) as (G & T & _).
  split; [exact G | exact T].
Defined.

(** C2 as stated fails: with two events and a patch of the first one that
    throws, the second event is neither looked up nor patched, although it
    is patched when the first patch succeeds. *)
Lemma patch_failure_skips_later_events :
  updateCalendarEvents 1 env_patch_fails JsNull initial_state
  = Some {| lastSyncToken := JsString (lit "t1");
            calls := 6;
            trace := [EventsList {| timeMin := Some T0;
                                    timeMax := Some (T0 + 1000 + 7 * MS_PER_DAY);
                                    syncToken := None |};
                      SetLastSyncToken (JsString (lit "t1"));
                      GetWeatherInfo (eventDate ev1);
                      AxiosGet 2;
                      ConsoleError WEATHER_ERROR (http_error 503);
                      EventsPatch (lit "e1") (lit "Standup (weather unavailable)");
                      ConsoleError UPDATE_ERROR (http_error 500)] |}
  /\ (forall st,
        updateCalendarEvents 1 env_patch_fails JsNull initial_state = Some st ->
        ~ In (GetWeatherInfo (eventDate ev2)) (trace st)
        /\ forall title, ~ In (EventsPatch (eventId ev2) title) (trace st))
  /\ (forall st,
        updateCalendarEvents 1 env_patch_ok JsNull initial_state = Some st ->
        In (GetWeatherInfo (eventDate ev2)) (trace st)
        /\ In (EventsPatch (eventId ev2) (lit "Lunch (weather unavailable)"))
             (trace st)).
Proof.
  split; [reflexivity|]. split.
  - intros st [= <-]. cbn [trace]. split.
    + intros H. repeat (destruct H as [H|H]; [discriminate H|]). exact H.
    + intros title H. repeat (destruct H as [H|H]; [discriminate H|]). exact H.
  - intros st H. vm_compute in H. injection H as <-. cbn [trace]. split.
    + do 6 right. left. reflexivity.
    + do 9 right. left. reflexivity.
Qed.

(** A calendar that answers 410 to every fetch: the function never returns. *)
Lemma always_410_never_returns (env : Env) (e : JsError) :
  (forall n p, events_list env n p = inl e) -> is_410 e = true ->
  forall fuel tok st, updateCalendarEvents fuel env tok st = None.
Proof.
  intros A G fuel. induction fuel as [|fuel IH]; intros tok st; [reflexivity|].
  rewrite updateCalendarEvents_S.
  rewrite (try_block_fetch_error env tok st e) by apply A.
  rewrite G. apply IH.
Qed.

(** C3 as stated fails: when the retry's fetch throws 410 as well, it is
    retried again (three fetches in the cycle) and that error is not logged. *)
Lemma second_410_is_retried_again :
  updateCalendarEvents 3 env_gone_twice (JsString (lit "old"))
    (with_token (lit "old"))
  = Some {| lastSyncToken := JsString (lit "t1");
            calls := 9;
            trace := [EventsList {| timeMin := None; timeMax := None;
                                    syncToken := Some (lit "old") |};
                      SetLastSyncToken JsNull;
                      EventsList {| timeMin := Some (T0 + 3000);
                                    timeMax := Some (T0 + 4000 + 7 * MS_PER_DAY);
                                    syncToken := None |};
                      SetLastSyncToken JsNull;
                      EventsList {| timeMin := Some (T0 + 6000);
                                    timeMax := Some (T0 + 7000 + 7 * MS_PER_DAY);
                                    syncToken := None |};
                      SetLastSyncToken (JsString (lit "t1"))] |}
  /\ (forall st,
        updateCalendarEvents 3 env_gone_twice (JsString (lit "old"))
          (with_token (lit "old")) = Some st ->
        List.length (fetches (trace st)) = 3%nat
        /\ forall label error, ~ In (ConsoleError label error) (trace st)).
Proof.
  split; [reflexivity|].
  intros st H. vm_compute in H. injection H as <-. cbn [trace]. split.
  - reflexivity.
  - intros label error H.
    repeat (destruct H as [H|H]; [discriminate H|]). exact H.
Qed.

(** C8 as stated fails: twenty days ahead the lookup returns
    ["(forecast unavailable)"], and the composed title does not end in
    ["(weather unavailable)"]. *)
Lemma far_horizon_not_weather_unavailable :
  (T0 + 20 * MS_PER_DAY) - clock plain_env (calls initial_state) > 14 * MS_PER_DAY
  /\ snd (getWeatherInfo plain_env (T0 + 20 * MS_PER_DAY) initial_state)
     = inr (lit "(forecast unavailable)")
  /\ newTitle (lit "Standup") (lit "(forecast unavailable)")
     = lit "Standup (forecast unavailable)"
  /\ ends_with (newTitle (lit "Standup") (lit "(forecast unavailable)"))
       (lit "(weather unavailable)") = false.
Proof. repeat split. Qed.

(** C5 as stated fails: the fetch succeeds with next-token ["t1"], the
    patch of the first event throws 410, the fetch of the recovery fails
    with 500, and the cycle ends with [lastSyncToken] [null]. *)
Lemma token_lost_after_patch_410 :
  fetch_answer env_refetch_fails JsNull initial_state
  = inr {| items := Some [ev1; ev2]; nextSyncToken := JsString (lit "t1") |}
  /\ updateCalendarEvents 2 env_refetch_fails JsNull initial_state
     = Some {| lastSyncToken := JsNull;
               calls := 9;
               trace := [EventsList {| timeMin := Some T0;
                                       timeMax := Some (T0 + 1000 + 7 * MS_PER_DAY);
                                       syncToken := None |};
                         SetLastSyncToken (JsString (lit "t1"));
                         GetWeatherInfo (T0 + 3600000);
                         AxiosGet 2;
                         ConsoleError WEATHER_ERROR (http_error 503);
                         EventsPatch (lit "e1") (lit "Standup (weather unavailable)");
                         SetLastSyncToken JsNull;
                         EventsList {| timeMin := Some (T0 + 6000);
                                       timeMax := Some (T0 + 7000 + 7 * MS_PER_DAY);
                                       syncToken := None |};
                         ConsoleError UPDATE_ERROR (http_error 500)] |}
  /\ (forall st,
        updateCalendarEvents 2 env_refetch_fails JsNull initial_state = Some st ->
        lastSyncToken st <> JsString (lit "t1")).
Proof.
  split; [reflexivity|]. split; [reflexivity|].
  intros st H. vm_compute in H. injection H as <-. discriminate.
Qed.

End Runs.

(** * Further properties of the program *)

(** ** What cleaning a title guarantees *)

Section CleanTitle.
Local Open Scope N_scope.

Lemma subseq_trans (a b c : jsstring) :
  subseq a b -> subseq b c -> subseq a c.
Proof.
  intros Hab Hbc. revert a Hab.
  induction Hbc as [|u b c _ IH|u b c _ IH]; intros a Hab.
  - exact Hab.
  - inversion Hab as [|v a' b' Ha'|v a' b' Ha']; subst.
    + constructor. now apply IH.
    + apply subseq_drop. now apply IH.
  - apply subseq_drop. now apply IH.
Qed.

Lemma subseq_outside_inside (s : jsstring) :
  subseq (outside s) s /\ subseq (inside s) s.
Proof.
  induction s as [|u r [IHo IHi]]; [split; constructor|].
  rewrite outside_cons, inside_cons. split.
  - destruct ((u =? LPAREN) && has_close r); now constructor.
  - destruct (u =? RPAREN); now constructor.
Qed.

(** X1.  The clean title is the summary with some code units deleted: nothing
    is added, replaced or reordered. *)
Theorem cleanTitle_only_deletes (s : jsstring) : subseq (cleanTitle s) s.
Proof.
  unfold cleanTitle, trim, remove_parens.
  eapply subseq_trans; [apply subseq_trimEnd|].
  eapply subseq_trans; [apply subseq_trimStart|].
  eapply subseq_trans; [apply subseq_remove_emoji|].
  eapply subseq_trans; [apply subseq_trimEnd|].
  eapply subseq_trans; [apply subseq_trimStart|].
  apply subseq_outside_inside.
Qed.

Lemma trimStart_head (s : jsstring) :
  match trimStart s with
  | [] => True
  | u :: _ => is_white_space u = false
  end.
Proof.
  induction s as [|u r IH]; [exact I|]. simpl.
  destruct (is_white_space u) eqn:W; [exact IH | exact W].
Qed.

Lemma trimEnd_head (u : N) (r : jsstring) :
  trimEnd (u :: r) = [] \/ exists t, trimEnd (u :: r) = u :: t.
Proof.
  simpl. destruct (trimEnd r) as [|x t].
  - destruct (is_white_space u); [now left | right; now exists []].
  - right. now exists (x :: t).
Qed.

Lemma trimEnd_last (s : jsstring) (v : N) (t : jsstring) :
  trimEnd s = v :: t -> is_white_space (last (v :: t) v) = false.
Proof.
  revert v t. induction s as [|u r IH]; intros v t H; [discriminate|].
  simpl in H. destruct (trimEnd r) as [|x t'] eqn:E.
  - destruct (is_white_space u) eqn:W; [discriminate|].
    injection H as <- <-. exact W.
  - injection H as <- <-.
    change (last (u :: x :: t') u) with (last (x :: t') u).
    rewrite (last_default t' x u x). now apply IH.
Qed.

Lemma trimmed_trim (s : jsstring) : trimmed (trim s) = true.
Proof.
  unfold trim. pose proof (trimStart_head s) as H.
  destruct (trimStart s) as [|u r]; [reflexivity|].
  destruct (trimEnd_head u r) as [E|[t E]]; rewrite E; [reflexivity|].
  unfold trimmed. now rewrite H, (trimEnd_last _ _ _ E).
Qed.

Lemma quiet_cleanTitle (s : jsstring) : quiet (cleanTitle s) = true.
Proof.
  unfold cleanTitle, remove_parens. apply quiet_trim.
  apply (subseq_quiet _ _ (subseq_remove_emoji _)). apply quiet_trim.
  apply outside_inside_quiet.
Qed.

(** X2.  Whatever the summary, its clean title neither starts nor ends with
    white space, and the pattern [\([^)]*\)] matches nowhere in it. *)
Theorem cleanTitle_trimmed_and_quiet (s : jsstring) :
  trimmed (cleanTitle s) = true
  /\ quiet (cleanTitle s) = true
  /\ remove_parens (cleanTitle s) = cleanTitle s
  /\ trim (cleanTitle s) = cleanTitle s.
Proof.
  assert (T : trimmed (cleanTitle s) = true) by apply trimmed_trim.
  repeat split.
  - exact T.
  - apply quiet_cleanTitle.
  - apply outside_fixed, quiet_cleanTitle.
  - now apply trim_fixed.
Qed.

Lemma well_formed_remove_emoji (s : jsstring) :
  well_formed s = true -> well_formed (remove_emoji s) = true.
Proof.
  induction s as [| u | u v r IHr IHv] using pair_ind; try (intros H; exact H).
  rewrite well_formed_cons, remove_emoji_cons.
  destruct (is_high_surrogate u) eqn:Hh.
  - intros H. apply andb_prop in H as [Hv Hr]. rewrite Hv. cbn [andb].
    destruct (is_emoji (code_point u v)); [now apply IHr|].
    now rewrite well_formed_cons, Hh, Hv, IHr.
  - intros H. apply andb_prop in H as [Hl H]. cbn [andb].
    now rewrite well_formed_cons, Hh, Hl, IHv.
Qed.

(** X3.  The clean title of a well-formed summary is well formed and holds no
    code point of the emoji class. *)
Theorem cleanTitle_well_formed_no_emoji (s : jsstring) :
  well_formed s = true ->
  well_formed (cleanTitle s) = true /\ has_emoji (cleanTitle s) = false.
Proof.
  intros H.
  assert (H1 : well_formed (trim (remove_parens s)) = true).
  { apply well_formed_trim. now apply well_formed_outside_inside. }
  unfold cleanTitle. split.
  - now apply well_formed_trim, well_formed_remove_emoji.
  - now apply has_emoji_trim, has_emoji_remove_emoji.
Qed.

Lemma no_open_has_no_match (c t : jsstring) :
  no_open c = true -> outside (c ++ t) = c ++ outside t.
Proof.
  induction c as [|u r IH]; intros H; [reflexivity|].
  simpl in H. apply andb_prop in H as [Hu Hr]. apply negb_true_iff in Hu.
  change ((u :: r) ++ t) with (u :: (r ++ t)).
  rewrite outside_cons, Hu. cbn [andb]. now rewrite IH.
Qed.

Lemma cleanTitle_in_parens (c body : jsstring) :
  no_open c = true -> has_emoji c = false -> trimmed c = true ->
  has_close body = false ->
  cleanTitle (newTitle c (in_parens body)) = c.
Proof.
  intros Ho He Ht Hb. unfold cleanTitle, remove_parens, newTitle, in_parens.
  rewrite no_open_has_no_match by assumption.
  assert (E : outside (SPACE :: LPAREN :: body ++ [RPAREN]) = [SPACE]).
  { rewrite outside_cons. change (SPACE =? LPAREN) with false. cbn [andb].
    rewrite outside_cons, N.eqb_refl, has_close_app.
    change (has_close [RPAREN]) with true. rewrite orb_true_r. cbn [andb].
    now rewrite inside_to_close. }
  rewrite E, trim_snoc_space by assumption.
  rewrite remove_emoji_fixed by assumption. now apply trim_fixed.
Qed.

(** X4.  A weather text is replaced, not accumulated: composing the clean title
    of a well-formed summary with one parenthesized text and cleaning the
    result gives the clean title back, so a second text takes the place of
    the first.  The clean title must hold no opening parenthesis (one that
    was left unclosed in the summary). *)
Theorem annotation_is_replaced (s body1 body2 : jsstring) :
  well_formed s = true -> no_open (cleanTitle s) = true ->
  has_close body1 = false ->
  cleanTitle (newTitle (cleanTitle s) (in_parens body1)) = cleanTitle s
  /\ newTitle (cleanTitle (newTitle (cleanTitle s) (in_parens body1)))
       (in_parens body2)
     = newTitle (cleanTitle s) (in_parens body2).
Proof.
  intros Hw Ho Hb.
  assert (E : cleanTitle (newTitle (cleanTitle s) (in_parens body1)) = cleanTitle s).
  { apply cleanTitle_in_parens; try assumption.
    - unfold cleanTitle.
      apply has_emoji_trim, has_emoji_remove_emoji, well_formed_trim.
      now apply well_formed_outside_inside.
    - apply trimmed_trim. }
  split; [exact E | now rewrite E].
Qed.

End CleanTitle.

(** ** The weather lookup *)

Section Lookup.
Local Open Scope Z_scope.

Variable env : Env.

(** [getWeatherInfo] case by case. *)
Lemma getWeatherInfo_cases (d : Z) (st : State) :
  getWeatherInfo env d st
  = let days := daysDifference env d st + 1 in
    if daysDifference env d st >? 14
    then (after_lookup st d 1 [], inr FORECAST_UNAVAILABLE)
    else
      match axios_get env (S (calls st)) days with
      | inl e =>
          (after_lookup st d 2 [AxiosGet days; ConsoleError WEATHER_ERROR e],
           inr WEATHER_UNAVAILABLE)
      | inr forecastday =>
          match find_day env d forecastday with
          | None => (after_lookup st d 2 [AxiosGet days], inr FORECAST_UNAVAILABLE)
          | Some forecast =>
              match pick_hour env d forecast with
              | None =>
                  (after_lookup st d 2
                     [AxiosGet days; ConsoleError WEATHER_ERROR TypeError],
                   inr WEATHER_UNAVAILABLE)
              | Some h =>
                  (after_lookup st d 2 [AxiosGet days],
                   inr (weather_description env h))
              end
          end
      end.
Proof.
  destruct st as [tk n tr].
  cbv beta iota zeta delta [getWeatherInfo bind try_catch emit new_Date
    axios_get_forecast tick ret throw daysDifference find_day pick_hour
    after_lookup calls lastSyncToken trace Nat.add].
  destruct (Math_ceil_div (d - clock env n) MS_PER_DAY >? 14);
    [reflexivity|].
  destruct (axios_get env (S n) (Math_ceil_div (d - clock env n) MS_PER_DAY + 1))
    as [e|days]; [rewrite <- ?app_assoc; reflexivity|].
  destruct (find (fun day => toDateString env (date day) =? toDateString env d)
              days) as [forecast|]; [|rewrite <- ?app_assoc; reflexivity].
  destruct (find (fun h => getHours env (time h) =? getHours env d)
              (hour forecast)) as [h|]; [rewrite <- ?app_assoc; reflexivity|].
  destruct (hd_error (hour forecast)) as [h|]; rewrite <- ?app_assoc; reflexivity.
Qed.

Lemma pick_hour_In (d : Z) (forecast : ForecastDay) (h : HourData) :
  pick_hour env d forecast = Some h -> In h (hour forecast).
Proof.
  unfold pick_hour.
  destruct (find _ (hour forecast)) as [h'|] eqn:F.
  - intros [= <-]. now apply find_some in F.
  - destruct (hour forecast) as [|x l]; [discriminate|].
    intros [= <-]. now left.
Qed.

Lemma in_parens_description (h : HourData) :
  exists body, weather_description env h = in_parens body.
Proof. eexists. apply weather_description_shape. Qed.

(** X6.  The lookup never throws.  It returns one of the two placeholder texts
    or the text of an hourly slot of the provider's answer, always a text in
    parentheses, and it leaves [lastSyncToken] alone. *)
Theorem getWeatherInfo_never_throws (d : Z) (st : State) :
  exists st' w,
    getWeatherInfo env d st = (st', inr w)
    /\ lastSyncToken st' = lastSyncToken st
    /\ (exists body, w = in_parens body)
    /\ (w = FORECAST_UNAVAILABLE \/ w = WEATHER_UNAVAILABLE
        \/ exists forecastday day h,
             axios_get env (S (calls st)) (daysDifference env d st + 1)
             = inr forecastday
             /\ In day forecastday /\ In h (hour day)
             /\ w = weather_description env h).
Proof.
  rewrite getWeatherInfo_cases. cbv zeta.
  destruct (daysDifference env d st >? 14).
  { eexists _, _. split; [reflexivity|]. split; [reflexivity|].
    split; [now exists (lit "forecast unavailable") | now left]. }
  destruct (axios_get env (S (calls st)) _) as [e|forecastday] eqn:A.
  { eexists _, _. split; [reflexivity|]. split; [reflexivity|].
    split; [now exists (lit "weather unavailable") | right; now left]. }
  destruct (find_day env d forecastday) as [forecast|] eqn:F.
  2:{ eexists _, _. split; [reflexivity|]. split; [reflexivity|].
      split; [now exists (lit "forecast unavailable") | now left]. }
  destruct (pick_hour env d forecast) as [h|] eqn:P.
  2:{ eexists _, _. split; [reflexivity|]. split; [reflexivity|].
      split; [now exists (lit "weather unavailable") | right; now left]. }
  eexists _, _. split; [reflexivity|]. split; [reflexivity|].
  split; [apply in_parens_description|].
  right. right. exists forecastday, forecast, h. repeat split.
  - now apply find_some in F.
  - now apply pick_hour_In in P.
Qed.

(** X7.  A lookup makes at most one request to the weather provider, for at
    most 15 days, and none at all beyond the horizon; it logs at most one
    error and never calls the calendar. *)
Theorem getWeatherInfo_one_request (d : Z) (st : State) :
  (daysDifference env d st > 14
   /\ fst (getWeatherInfo env d st) = after_lookup st d 1 [])
  \/ (daysDifference env d st + 1 <= 15
      /\ exists tail,
           fst (getWeatherInfo env d st)
           = after_lookup st d 2 (AxiosGet (daysDifference env d st + 1) :: tail)
           /\ (tail = [] \/ exists e, tail = [ConsoleError WEATHER_ERROR e])).
Proof.
  rewrite getWeatherInfo_cases. cbv zeta.
  destruct (daysDifference env d st >? 14) eqn:G.
  { left. split; [apply Z.gtb_lt in G; lia | reflexivity]. }
  right. split; [rewrite Z.gtb_ltb in G; apply Z.ltb_ge in G; lia|].
  destruct (axios_get env (S (calls st)) _) as [e|forecastday].
  { eexists. split; [reflexivity|]. right. now eexists. }
  destruct (find_day env d forecastday) as [forecast|].
  2:{ eexists. split; [reflexivity|]. now left. }
  destruct (pick_hour env d forecast) as [h|].
  - eexists. split; [reflexivity|]. now left.
  - eexists. split; [reflexivity|]. right. now eexists.
Qed.

(** X8.  Within the horizon, a failed request and a forecast day without hourly
    slots both end in the text ["(weather unavailable)"], the error being
    logged and not thrown. *)
Theorem getWeatherInfo_degrades (d : Z) (st : State) :
  daysDifference env d st <= 14 ->
  (forall e,
     axios_get env (S (calls st)) (daysDifference env d st + 1) = inl e ->
     getWeatherInfo env d st
     = (after_lookup st d 2 [AxiosGet (daysDifference env d st + 1);
                             ConsoleError WEATHER_ERROR e],
        inr WEATHER_UNAVAILABLE))
  /\ (forall forecastday forecast,
        axios_get env (S (calls st)) (daysDifference env d st + 1)
        = inr forecastday ->
        find_day env d forecastday = Some forecast ->
        hour forecast = [] ->
        getWeatherInfo env d st
        = (after_lookup st d 2 [AxiosGet (daysDifference env d st + 1);
                                ConsoleError WEATHER_ERROR TypeError],
           inr WEATHER_UNAVAILABLE)).
Proof.
  intros G. assert (G' : (daysDifference env d st >? 14) = false).
  { rewrite Z.gtb_ltb. apply Z.ltb_ge. lia. }
  split.
  - intros e A. rewrite getWeatherInfo_cases. cbv zeta. now rewrite G', A.
  - intros forecastday forecast A F H.
    rewrite getWeatherInfo_cases. cbv zeta. rewrite G', A, F.
    unfold pick_hour. now rewrite H.
Qed.

Lemma find_day_none (d : Z) (forecastday : list ForecastDay) :
  (forall day, In day forecastday ->
               toDateString env (date day) <> toDateString env d) ->
  find_day env d forecastday = None.
Proof.
  unfold find_day. induction forecastday as [|x l IH]; intros H; [reflexivity|].
  simpl. destruct (toDateString env (date x) =? toDateString env d) eqn:E.
  - apply Z.eqb_eq in E. exfalso. apply (H x); [now left | exact E].
  - apply IH. intros day Hd. apply H. now right.
Qed.

Lemma find_first {A} (f : A -> bool) (l : list A) (x : A) :
  find f l = Some x ->
  f x = true
  /\ exists before after,
       l = before ++ x :: after /\ forall y, In y before -> f y = false.
Proof.
  induction l as [|a l IH]; [discriminate|]. simpl.
  destruct (f a) eqn:E.
  - intros [= <-]. split; [exact E|]. exists [], l. split; [reflexivity|].
    intros y [].
  - intros H. destruct (IH H) as (Hx & before & after & -> & Hb).
    split; [exact Hx|]. exists (a :: before), after. split; [reflexivity|].
    intros y [<-|Hy]; [exact E | now apply Hb].
Qed.

(** X9.  Within the horizon and with an answer from the provider: if no day of
    the answer is the event's calendar day the text is
    ["(forecast unavailable)"]; otherwise the day used is the first one of
    the answer on that calendar day, and if it has hourly slots the text
    describes its first slot at the event's hour when there is one and its
    first slot otherwise. *)
Theorem getWeatherInfo_picks_slot (d : Z) (st : State)
    (forecastday : list ForecastDay) :
  daysDifference env d st <= 14 ->
  axios_get env (S (calls st)) (daysDifference env d st + 1) = inr forecastday ->
  ((forall day, In day forecastday ->
                toDateString env (date day) <> toDateString env d) ->
   snd (getWeatherInfo env d st) = inr FORECAST_UNAVAILABLE)
  /\ (forall forecast,
        find_day env d forecastday = Some forecast ->
        hour forecast <> [] ->
        (toDateString env (date forecast) = toDateString env d
         /\ exists earlier later,
              forecastday = earlier ++ forecast :: later
              /\ forall day, In day earlier ->
                             toDateString env (date day) <> toDateString env d)
        /\ exists h,
             snd (getWeatherInfo env d st) = inr (weather_description env h)
             /\ ((getHours env (time h) = getHours env d
                  /\ exists before after,
                       hour forecast = before ++ h :: after
                       /\ forall h', In h' before ->
                                     getHours env (time h') <> getHours env d)
                 \/ ((forall h', In h' (hour forecast) ->
                                 getHours env (time h') <> getHours env d)
                     /\ exists after, hour forecast = h :: after))).
Proof.
  intros G A. assert (G' : (daysDifference env d st >? 14) = false).
  { rewrite Z.gtb_ltb. apply Z.ltb_ge. lia. }
  rewrite getWeatherInfo_cases. cbv zeta. rewrite G', A. split.
  - intros H. now rewrite (find_day_none _ _ H).
  - intros forecast F Hh. rewrite F. split.
    + destruct (find_first _ _ _ F) as (Hd & earlier & later & E & Hb).
      apply Z.eqb_eq in Hd. split; [exact Hd|]. exists earlier, later.
      split; [exact E|]. intros day Hi. apply Z.eqb_neq. now apply Hb.
    + unfold pick_hour.
      destruct (find _ (hour forecast)) as [h|] eqn:P.
      * destruct (find_first _ _ _ P) as (Hq & before & after & E & Hb).
        apply Z.eqb_eq in Hq. exists h. split; [reflexivity|]. left.
        split; [exact Hq|]. exists before, after. split; [exact E|].
        intros h' Hi. apply Z.eqb_neq. now apply Hb.
      * destruct (hour forecast) as [|x l] eqn:E; [congruence|].
        exists x. split; [reflexivity|]. right. split; [|now exists l].
        intros h' Hi. pose proof (find_none _ _ P h' Hi) as Hq.
        now apply Z.eqb_neq in Hq.
Qed.

End Lookup.

(** ** The loop and the cycle *)

Section Loop.
Local Open Scope Z_scope.

Variable env : Env.

(** What a lookup adds to the trace. *)
Lemma getWeatherInfo_frame (d : Z) (st : State) :
  exists st1 w effects,
    getWeatherInfo env d st = (st1, inr w)
    /\ lastSyncToken st1 = lastSyncToken st
    /\ trace st1 = trace st ++ GetWeatherInfo d :: effects
    /\ Forall loop_effect effects
    /\ lookups effects = [] /\ patches effects = []
    /\ exists body, w = in_parens body.
Proof.
  rewrite getWeatherInfo_cases. cbv zeta.
  destruct (daysDifference env d st >? 14) eqn:G.
  { eexists _, _, []. repeat split; [constructor|].
    now exists (lit "forecast unavailable"). }
  assert (G' : daysDifference env d st + 1 <= 15).
  { rewrite Z.gtb_ltb in G. apply Z.ltb_ge in G. lia. }
  destruct (axios_get env (S (calls st)) _) as [e|forecastday].
  { eexists _, _, [_; _]. repeat split.
    - repeat constructor. exact G'.
    - now exists (lit "weather unavailable"). }
  destruct (find_day env d forecastday) as [forecast|].
  2:{ eexists _, _, [_]. repeat split.
      - repeat constructor. exact G'.
      - now exists (lit "forecast unavailable"). }
  destruct (pick_hour env d forecast) as [h|].
  - eexists _, _, [_]. repeat split.
    + repeat constructor. exact G'.
    + apply in_parens_description.
  - eexists _, _, [_; _]. repeat split.
    + repeat constructor. exact G'.
    + now exists (lit "weather unavailable").
Qed.

(** The loop body, case by case. *)
Lemma process_event_frame (tmax : Z) (ev : Event) (st st' : State)
    (r : JsError + unit) :
  process_event env tmax ev st = (st', r) ->
  (eventDate ev > tmax /\ st' = st /\ r = inr tt)
  \/ (eventDate ev <= tmax
      /\ exists st1 w effects,
           getWeatherInfo env (eventDate ev) st = (st1, inr w)
           /\ lastSyncToken st1 = lastSyncToken st
           /\ trace st1 = trace st ++ GetWeatherInfo (eventDate ev) :: effects
           /\ Forall loop_effect effects
           /\ lookups effects = [] /\ patches effects = []
           /\ (exists body, w = in_parens body)
           /\ ((newTitle (cleanTitle (summary ev)) w = summary ev
                /\ st' = st1 /\ r = inr tt)
               \/ (newTitle (cleanTitle (summary ev)) w <> summary ev
                   /\ st' = after_patch st1 (eventId ev)
                              (newTitle (cleanTitle (summary ev)) w)
                   /\ r = match events_patch env (calls st1) (eventId ev)
                                  (newTitle (cleanTitle (summary ev)) w) with
                          | Some e => inl e
                          | None => inr tt
                          end))).
Proof.
  destruct (Z_gt_le_dec (eventDate ev) tmax) as [H|H].
  - rewrite process_event_skip by assumption. intros [= <- <-]. now left.
  - destruct (getWeatherInfo_frame (eventDate ev) st)
      as (st1 & w & effects & G & T & R & F & L & P & B).
    rewrite (process_event_run _ _ _ _ _ _ H G). intros E. right.
    split; [exact H|]. exists st1, w, effects.
    repeat (split; [assumption|]).
    destruct (jsstring_eqb _ (summary ev)) eqn:Q.
    + injection E as <- <-. left. now apply jsstring_eqb_eq in Q.
    + rewrite calendar_events_patch_eq in E. injection E as <- <-. right.
      split; [|now split]. intros C. apply jsstring_eqb_eq in C. congruence.
Qed.

Lemma lookups_app (a b : list Effect) : lookups (a ++ b) = lookups a ++ lookups b.
Proof. apply filter_app. Qed.

(** What the loop adds to the trace. *)
Lemma for_of_frame (tmax : Z) (l : list Event) (st st' : State)
    (r : JsError + unit) :
  for_of (process_event env tmax) l st = (st', r) ->
  lastSyncToken st' = lastSyncToken st
  /\ exists rest, trace st' = trace st ++ rest /\ Forall loop_effect rest.
Proof.
  revert st. induction l as [|ev l IH]; intros st.
  - intros [= <- _]. split; [reflexivity|]. exists []. now rewrite app_nil_r.
  - rewrite for_of_cons.
    destruct (process_event env tmax ev st) as [st1 r1] eqn:P.
    assert (B : lastSyncToken st1 = lastSyncToken st
                /\ exists rest, trace st1 = trace st ++ rest
                                /\ Forall loop_effect rest).
    { apply process_event_frame in P
        as [(_ & -> & _)|(_ & sw & w & eff & _ & T & R & F & _ & _ & _ & C)].
      - split; [reflexivity|]. exists []. now rewrite app_nil_r.
      - destruct C as [(_ & -> & _)|(_ & -> & _)].
        + split; [exact T|]. exists (GetWeatherInfo (eventDate ev) :: eff).
          split; [exact R|]. now constructor.
        + split; [exact T|].
          exists (GetWeatherInfo (eventDate ev) :: eff
                  ++ [EventsPatch (eventId ev)
                        (newTitle (cleanTitle (summary ev)) w)]).
          cbn [after_patch trace]. rewrite R, <- app_assoc. split; [reflexivity|].
          constructor; [exact I|]. apply Forall_app. split; [exact F|].
          now repeat constructor. }
    destruct B as (T1 & rest1 & R1 & F1).
    destruct r1 as [e|[]].
    + intros [= <- _]. split; [exact T1|]. now exists rest1.
    + intros H. apply IH in H as (T2 & rest2 & R2 & F2).
      split; [congruence|]. exists (rest1 ++ rest2).
      rewrite R2, R1, <- app_assoc. split; [reflexivity|].
      apply Forall_app. now split.
Qed.

(** X10.  The loop never fetches and never writes [lastSyncToken]; its forecast
    requests ask for at most 15 days and the only errors it logs are those
    of the weather lookup. *)
Theorem loop_effects_only (tmax : Z) (l : list Event) (st st' : State)
    (r : JsError + unit) :
  for_of (process_event env tmax) l st = (st', r) ->
  lastSyncToken st' = lastSyncToken st
  /\ exists rest,
       trace st' = trace st ++ rest
       /\ Forall loop_effect rest
       /\ fetches rest = []
       /\ filter is_token_write rest = [].
Proof.
  intros H. apply for_of_frame in H as (T & rest & R & F).
  split; [exact T|]. exists rest. split; [exact R|]. split; [exact F|].
  clear R. induction F as [|e rest He _ [IH1 IH2]]; [now split|].
  unfold fetches in *. cbn [filter].
  destruct e; try contradiction; cbn [is_list is_token_write]; now split.
Qed.

(** X11.  When the loop finishes, the lookups it made are exactly those of the
    events within the bound, in the order of the response, and it made at
    most one patch call for each of them. *)
Theorem loop_lookups_in_order (tmax : Z) (l : list Event) (st st' : State) :
  for_of (process_event env tmax) l st = (st', inr tt) ->
  lookups (trace st')
  = lookups (trace st)
    ++ List.map (fun ev => GetWeatherInfo (eventDate ev))
         (filter (in_window tmax) l)
  /\ (List.length (patches (trace st'))
      <= List.length (patches (trace st))
         + List.length (filter (in_window tmax) l))%nat.
Proof.
  revert st. induction l as [|ev l IH]; intros st.
  - intros [= <-]. cbn [filter List.map List.length]. rewrite app_nil_r.
    split; [reflexivity | lia].
  - rewrite for_of_cons.
    destruct (process_event env tmax ev st) as [st1 [e|[]]] eqn:P; [discriminate|].
    intros H. apply IH in H as [HL HP]. cbn [filter].
    apply process_event_frame in P
      as [(Hd & -> & _)|(Hd & sw & w & eff & _ & _ & R & _ & L & Pt & _ & C)].
    + assert (W : in_window tmax ev = false) by (apply Z.leb_gt; lia).
      rewrite W. now split.
    + assert (W : in_window tmax ev = true) by (apply Z.leb_le; lia).
      rewrite W. cbn [List.map List.length].
      assert (Lw : lookups (trace sw)
                   = lookups (trace st) ++ [GetWeatherInfo (eventDate ev)]).
      { rewrite R, lookups_app. cbn [lookups filter is_lookup].
        fold (lookups eff). now rewrite L. }
      assert (Pw : patches (trace sw) = patches (trace st)).
      { rewrite R, patches_app. cbn [patches filter is_patch].
        fold (patches eff). rewrite Pt. apply app_nil_r. }
      destruct C as [(_ & -> & _)|(_ & -> & _)].
      * rewrite HL, Lw, <- app_assoc. split; [reflexivity|].
        rewrite Pw in HP. lia.
      * cbn [after_patch trace] in HL, HP.
        rewrite lookups_app in HL. rewrite patches_app in HP.
        cbn [lookups patches filter is_lookup is_patch] in HL, HP.
        rewrite app_nil_r in HL. rewrite length_app in HP. cbn [List.length] in HP.
        fold (lookups (trace sw)) in HL. fold (patches (trace sw)) in HP.
        rewrite HL, Lw, <- app_assoc. split; [reflexivity|].
        rewrite Pw in HP. lia.
Qed.

(** X12.  Every patch call the loop makes is for an event of the response that
    lies within the bound; it carries that event's id and a title that
    differs from the event's summary: the clean title, a space and a text
    in parentheses. *)
Theorem loop_patches_changed_events (tmax : Z) (l : list Event)
    (st st' : State) (r : JsError + unit) (id title : jsstring) :
  for_of (process_event env tmax) l st = (st', r) ->
  In (EventsPatch id title) (trace st') ->
  In (EventsPatch id title) (trace st)
  \/ exists ev body,
       In ev l /\ eventDate ev <= tmax /\ id = eventId ev
       /\ title = newTitle (cleanTitle (summary ev)) (in_parens body)
       /\ title <> summary ev.
Proof.
  revert st. induction l as [|ev l IH]; intros st.
  - intros [= <- _]. now left.
  - rewrite for_of_cons.
    destruct (process_event env tmax ev st) as [st1 r1] eqn:P.
    assert (B : In (EventsPatch id title) (trace st1) ->
                In (EventsPatch id title) (trace st)
                \/ exists body,
                     eventDate ev <= tmax /\ id = eventId ev
                     /\ title = newTitle (cleanTitle (summary ev)) (in_parens body)
                     /\ title <> summary ev).
    { apply process_event_frame in P
        as [(_ & -> & _)|(Hd & sw & w & eff & _ & _ & R & _ & _ & Pt & [b ->] & C)];
        [now left|].
      assert (Hw : In (EventsPatch id title) (trace sw) ->
                   In (EventsPatch id title) (trace st)).
      { rewrite R. intros Hi. apply in_app_or in Hi as [Hi|[Hi|Hi]];
          [exact Hi | discriminate|].
        exfalso. assert (Hf : In (EventsPatch id title) (patches eff)).
        { apply filter_In. now split. }
        now rewrite Pt in Hf. }
      destruct C as [(_ & -> & _)|(Hn & -> & _)].
      - intros Hi. left. now apply Hw.
      - cbn [after_patch trace]. intros Hi.
        apply in_app_or in Hi as [Hi|[Hi|[]]]; [left; now apply Hw|].
        injection Hi as <- <-. right. now exists b. }
    destruct r1 as [e|[]].
    + intros [= <- _] Hi. destruct (B Hi) as [Ho|(b & Hb)]; [now left|].
      right. exists ev, b. split; [now left | exact Hb].
    + intros H Hi. destruct (IH _ H Hi) as [Ho|(ev' & b & Hin & Hb)].
      * destruct (B Ho) as [Ho'|(b & Hb)]; [now left|].
        right. exists ev, b. split; [now left | exact Hb].
      * right. exists ev', b. split; [now right | exact Hb].
Qed.

(** An error that leaves the loop was thrown by a patch call. *)
Lemma for_of_throw_origin (tmax : Z) (l : list Event) (st st' : State)
    (e : JsError) :
  for_of (process_event env tmax) l st = (st', inl e) ->
  exists n id title, events_patch env n id title = Some e.
Proof.
  revert st. induction l as [|ev l IH]; intros st; [discriminate|].
  rewrite for_of_cons.
  destruct (process_event env tmax ev st) as [st1 [e1|[]]] eqn:P.
  - intros [= <- <-]. apply process_event_throw in P as (sw & w & _ & _ & P).
    eauto.
  - apply IH.
Qed.

Lemma exclusive_cycle_params (tok : JsValue) (st : State) :
  exclusive (cycle_params env tok st) = true.
Proof. destruct tok as [| |[|u s]]; reflexivity. Qed.

Lemma loop_effect_cycle_effect (e : Effect) : loop_effect e -> cycle_effect e.
Proof. destruct e; simpl; auto; contradiction. Qed.

(** What a whole cycle adds to the trace. *)
Lemma cycle_frame (fuel : nat) (tok : JsValue) (st st' : State) :
  updateCalendarEvents fuel env tok st = Some st' ->
  exists rest,
    trace st' = trace st ++ EventsList (cycle_params env tok st) :: rest
    /\ Forall cycle_effect rest.
Proof.
  revert tok st. induction fuel as [|fuel IH]; intros tok st; [discriminate|].
  rewrite updateCalendarEvents_S.
  destruct (fetch_answer env tok st) as [e|res] eqn:F.
  - rewrite (try_block_fetch_error _ _ _ _ F).
    destruct (is_410 e).
    + intros H. apply IH in H as (rest & R & C).
      exists (SetLastSyncToken JsNull
              :: EventsList (cycle_params env JsUndefined
                               (run (set_lastSyncToken JsNull)
                                  (fetch_failed env tok st))) :: rest).
      rewrite R. unfold run, set_lastSyncToken, fetch_failed.
      cbn [fst trace]. rewrite <- !app_assoc. split; [reflexivity|].
      constructor; [exact I|]. constructor; [|exact C].
      apply exclusive_cycle_params.
    + intros [= <-]. exists [ConsoleError UPDATE_ERROR e].
      unfold run, emit, fetch_failed. cbn [fst trace].
      rewrite <- app_assoc. split; [reflexivity | now repeat constructor].
  - rewrite (try_block_fetch_ok _ _ _ _ F).
    destruct (for_of _ (events_of res) _) as [st1 r] eqn:L.
    apply for_of_frame in L as (_ & rest1 & R1 & F1).
    cbn [after_fetch trace] in R1. rewrite <- app_assoc in R1.
    assert (C1 : Forall cycle_effect rest1).
    { eapply Forall_impl; [|exact F1]. apply loop_effect_cycle_effect. }
    destruct r as [e|[]].
    + destruct (is_410 e).
      * intros H. apply IH in H as (rest & R & C).
        exists (SetLastSyncToken (nextSyncToken res) :: rest1
                ++ SetLastSyncToken JsNull
                   :: EventsList (cycle_params env JsUndefined
                                    (run (set_lastSyncToken JsNull) st1)) :: rest).
        rewrite R. unfold run, set_lastSyncToken. cbn [fst trace].
        rewrite R1, <- !app_assoc. split; [reflexivity|].
        constructor; [exact I|]. apply Forall_app. split; [exact C1|].
        constructor; [exact I|]. constructor; [|exact C].
        apply exclusive_cycle_params.
      * intros [= <-].
        exists (SetLastSyncToken (nextSyncToken res) :: rest1
                ++ [ConsoleError UPDATE_ERROR e]).
        unfold run, emit. cbn [fst trace]. rewrite R1, <- !app_assoc.
        split; [reflexivity|]. constructor; [exact I|].
        apply Forall_app. split; [exact C1 | now repeat constructor].
    + intros [= <-]. exists (SetLastSyncToken (nextSyncToken res) :: rest1).
      split; [exact R1|]. now constructor.
Qed.

(** X13.  Whatever happens in a cycle, each of its fetches carries either a token
    and no time bound or both time bounds and no token, the first of them
    being the request of [cycle_params]; and each forecast request asks for
    at most 15 days. *)
Theorem cycle_requests_exclusive (fuel : nat) (tok : JsValue) (st st' : State) :
  updateCalendarEvents fuel env tok st = Some st' ->
  exclusive (cycle_params env tok st) = true
  /\ exists rest,
       trace st' = trace st ++ EventsList (cycle_params env tok st) :: rest
       /\ (forall p, In (EventsList p) rest -> exclusive p = true)
       /\ requests_at_most 15 rest.
Proof.
  intros H. split; [apply exclusive_cycle_params|].
  apply cycle_frame in H as (rest & R & C). exists rest.
  split; [exact R|]. rewrite Forall_forall in C. split.
  - intros p Hp. exact (C _ Hp).
  - intros days Hd. exact (C _ Hd).
Qed.

(** X14.  A patch error with code 410 is handled like an expired token: the token
    just fetched is replaced by [null] and the function calls itself, which
    starts over with a full-range fetch. *)
Theorem patch_410_restarts_cycle (tok : JsValue) (st : State)
    (res : ListResponse) (pre post : list Event) (ev : Event)
    (st1 st2 : State) (err : JsError) (fuel : nat) :
  fetch_answer env tok st = inr res ->
  events_of res = pre ++ ev :: post ->
  for_of (process_event env (cycle_timeMax env st)) pre
    (after_fetch env tok st (nextSyncToken res)) = (st1, inr tt) ->
  process_event env (cycle_timeMax env st) ev st1 = (st2, inl err) ->
  is_410 err = true ->
  updateCalendarEvents (S fuel) env tok st
  = updateCalendarEvents fuel env JsUndefined
      {| lastSyncToken := JsNull;
         calls := calls st2;
         trace := trace st2 ++ [SetLastSyncToken JsNull] |}
  /\ cycle_params env JsUndefined
       {| lastSyncToken := JsNull;
          calls := calls st2;
          trace := trace st2 ++ [SetLastSyncToken JsNull] |}
     = {| timeMin := Some (clock env (calls st2));
          timeMax := Some (addDays env (clock env (S (calls st2))) 7);
          syncToken := None |}.
Proof.
  intros F Hl Hpre Hev G.
  pose proof (for_of_app_throw _ _ _ post _ _ _ _ _ Hpre Hev) as L.
  split; [|reflexivity].
  now rewrite updateCalendarEvents_S, (try_block_fetch_ok _ _ _ _ F), Hl, L, G.
Qed.

Lemma try_block_throw_origin (tok : JsValue) (st st1 : State) (e : JsError) :
  try_block env (default_null tok) st = (st1, inl e) ->
  (exists n p, events_list env n p = inl e)
  \/ (exists n id title, events_patch env n id title = Some e).
Proof.
  destruct (fetch_answer env tok st) as [e'|res] eqn:F.
  - rewrite (try_block_fetch_error _ _ _ _ F). intros [= _ <-]. left.
    unfold fetch_answer in F. eauto.
  - rewrite (try_block_fetch_ok _ _ _ _ F). intros L. right.
    now apply for_of_throw_origin in L.
Qed.

(** X15.  When neither the calendar's [list] nor its [patch] ever answers with an
    error of code 410, every cycle returns without calling itself: the
    result is there with any positive amount of fuel. *)
Theorem cycle_returns_without_410 (tok : JsValue) (st : State) :
  (forall n p e, events_list env n p = inl e -> is_410 e = false) ->
  (forall n id title e, events_patch env n id title = Some e -> is_410 e = false) ->
  exists st',
    (forall fuel, updateCalendarEvents (S fuel) env tok st = Some st')
    /\ List.length (fetches (trace st'))
       = S (List.length (fetches (trace st))).
Proof.
  intros HL HP.
  destruct (try_block env (default_null tok) st) as [st1 r] eqn:T.
  assert (Hf : List.length (fetches (trace st1))
               = S (List.length (fetches (trace st)))).
  { destruct (fetch_answer env tok st) as [e|res] eqn:F.
    - rewrite (try_block_fetch_error _ _ _ _ F) in T. injection T as <- _.
      unfold fetch_failed, fetches. cbn [trace].
      rewrite filter_app, length_app. cbn. lia.
    - rewrite (try_block_fetch_ok _ _ _ _ F) in T.
      apply for_of_frame in T as (_ & rest & R & Fr).
      assert (Z0 : fetches rest = []).
      { clear R. induction Fr as [|x rest Hx _ IH]; [reflexivity|].
        unfold fetches in *. cbn [filter].
        destruct x; try contradiction; cbn [is_list]; exact IH. }
      rewrite R. unfold fetches in *. rewrite filter_app, Z0, app_nil_r.
      cbn [after_fetch trace]. rewrite filter_app, length_app. cbn. lia. }
  destruct r as [e|[]].
  - assert (N : is_410 e = false).
    { destruct (try_block_throw_origin _ _ _ _ T) as [(n & p & H)|(n & i & t & H)];
        eauto. }
    eexists. split.
    + intros fuel. rewrite updateCalendarEvents_S, T, N. reflexivity.
    + unfold run, emit, fetches in *. cbn [fst trace].
      rewrite filter_app. cbn [filter is_list]. now rewrite app_nil_r.
  - exists st1. split; [|exact Hf].
    intros fuel. now rewrite updateCalendarEvents_S, T.
Qed.

(** X5.  An event whose summary is the title a cycle wrote (the clean title
    of a well-formed summary without an unclosed parenthesis, a space, and a
    weather text with no closing parenthesis inside its parentheses) is left
    alone as long as the lookup returns the same text. *)
Theorem patched_event_is_left_alone (tmax : Z) (ev : Event) (st st1 : State)
    (s body : jsstring) :
  eventDate ev <= tmax ->
  getWeatherInfo env (eventDate ev) st = (st1, inr (in_parens body)) ->
  has_close body = false ->
  well_formed s = true -> no_open (cleanTitle s) = true ->
  summary ev = newTitle (cleanTitle s) (in_parens body) ->
  process_event env tmax ev st = (st1, inr tt).
Proof.
  intros H G Hb Hw Ho E.
  rewrite (process_event_run _ _ _ _ _ _ H G), E.
  rewrite cleanTitle_in_parens; try assumption.
  - now rewrite (proj2 (jsstring_eqb_eq _ _) eq_refl).
  - unfold cleanTitle.
    apply has_emoji_trim, has_emoji_remove_emoji, well_formed_trim.
    now apply well_formed_outside_inside.
  - apply trimmed_trim.
Qed.

End Loop.

(** ** The timers and the health endpoint *)

Section Scheduler.
Local Open Scope Z_scope.

Variable env : Env.

(** X16.  The hourly update never uses the stored token: it clears it and its
    first call is a full-range fetch.  When that fetch throws an error whose
    code is not 410, the update ends with [lastSyncToken] still [null]. *)
Theorem scheduled_update_is_full_range (st : State) :
  (forall fuel st',
     scheduled_update fuel env st = Some st' ->
     exists rest,
       trace st' = trace st ++ SetLastSyncToken JsNull
                            :: EventsList (full_range env st) :: rest)
  /\ (forall e fuel,
        events_list env (S (S (calls st))) (full_range env st) = inl e ->
        is_410 e = false ->
        scheduled_update (S fuel) env st
        = Some {| lastSyncToken := JsNull;
                  calls := S (S (S (calls st)));
                  trace := trace st ++ [SetLastSyncToken JsNull;
                                        EventsList (full_range env st);
                                        ConsoleError UPDATE_ERROR e] |}).
Proof.
  split.
  - intros fuel st' H. unfold scheduled_update in H.
    apply cycle_frame in H as (rest & R & _). exists rest.
    rewrite R. unfold run, set_lastSyncToken. cbn [fst trace].
    now rewrite <- app_assoc.
  - intros e fuel F N. unfold scheduled_update.
    rewrite updateCalendarEvents_S.
    rewrite (try_block_fetch_error env JsUndefined _ e) by exact F.
    rewrite N. unfold run, emit, set_lastSyncToken, fetch_failed.
    cbn [fst calls lastSyncToken trace]. now rewrite <- !app_assoc.
Qed.

(** X18.  The health endpoint answers 200 to every request and changes neither
    the token nor the trace; for the URL ["/health"] it reports ["active"]
    exactly when [lastSyncToken] is a non-empty string.  So after a cycle
    whose fetch succeeded (no patch throwing 410) it reports ["active"]
    exactly when the fetched next-token is a non-empty string. *)
Theorem health_reports_token (tok : JsValue) (st : State) (res : ListResponse) :
  (forall url st0,
     statusCode_of (http_server env url st0) = Some 200
     /\ lastSyncToken (fst (http_server env url st0)) = lastSyncToken st0
     /\ trace (fst (http_server env url st0)) = trace st0)
  /\ (fetch_answer env tok st = inr res ->
      (forall e, snd (try_block env (default_null tok) st) = inl e ->
                 is_410 e = false) ->
      forall fuel, exists st',
        updateCalendarEvents (S fuel) env tok st = Some st'
        /\ snd (http_server env (lit "/health") st')
           = inr {| statusCode := 200;
                    contentType := "application/json";
                    body := HealthJson "healthy"
                              (if truthy (nextSyncToken res)
                               then "active" else "pending")
                              (clock env (calls st')) |}).
Proof.
  split.
  - intros url st0. unfold statusCode_of, http_server.
    destruct (jsstring_eqb url (lit "/health")); now repeat split.
  - intros F Hr fuel.
    destruct (cycle_after_fetch _ _ _ _ F) as (st1 & r & rest & E & _ & _ & C).
    rewrite E in Hr. cbn [snd] in Hr.
    destruct (C (fun e H => Hr e H) fuel) as (st' & U & T).
    exists st'. split; [exact U|].
    unfold http_server. change (jsstring_eqb (lit "/health") (lit "/health")) with true.
    cbn [snd]. now rewrite T.
Qed.

(** X17.  The token a cycle captured is the one the next watch cycle sends: after
    a cycle whose fetch returned a non-empty next-token (no patch throwing
    410), the first call of [watchForChanges] is a fetch with that token and
    without time bounds. *)
Theorem watch_uses_captured_token (tok : JsValue) (st : State)
    (res : ListResponse) (u : N) (s : jsstring) (fuel : nat) :
  fetch_answer env tok st = inr res ->
  nextSyncToken res = JsString (u :: s) ->
  (forall e, snd (try_block env (default_null tok) st) = inl e ->
             is_410 e = false) ->
  exists st',
    updateCalendarEvents (S fuel) env tok st = Some st'
    /\ forall fuel' st'',
         watchForChanges fuel' env st' = Some st'' ->
         exists rest,
           trace st''
           = trace st' ++ EventsList {| timeMin := None; timeMax := None;
                                        syncToken := Some (u :: s) |} :: rest.
Proof.
  intros F N Hr.
  destruct (cycle_after_fetch _ _ _ _ F) as (st1 & r & rest & E & _ & _ & C).
  rewrite E in Hr. cbn [snd] in Hr.
  destruct (C (fun e H => Hr e H) fuel) as (st' & U & T).
  exists st'. split; [exact U|]. intros fuel' st'' W.
  unfold watchForChanges in W. apply cycle_frame in W as (rest' & R & _).
  exists rest'. rewrite R. unfold cycle_params. now rewrite T, N.
Qed.

End Scheduler.

(** ** The further properties on concrete runs *)

Section MoreRuns.
Local Open Scope Z_scope.

Lemma cleanTitle_well_formed_no_emoji_witness :
  well_formed busy_summary = true
  /\ cleanTitle busy_summary = lit "Lunch   (x"
  /\ well_formed (cleanTitle busy_summary) = true
  /\ has_emoji (cleanTitle busy_summary) = false.
Proof.
  assert (H : well_formed busy_summary = true) by reflexivity.
  split; [exact H|]. split; [reflexivity|].
  exact (cleanTitle_well_formed_no_emoji busy_summary H).
Defined.

Lemma annotation_is_replaced_witness :
  well_formed (lit "Standup") = true
  /\ no_open (cleanTitle (lit "Standup")) = true
  /\ has_close (lit "sunny, 18") = false
  /\ newTitle (cleanTitle (newTitle (cleanTitle (lit "Standup"))
                             (in_parens (lit "sunny, 18"))))
       (in_parens (lit "cloudy, 20"))
     = newTitle (cleanTitle (lit "Standup")) (in_parens (lit "cloudy, 20")).
Proof.
  split; [reflexivity|]. split; [reflexivity|]. split; [reflexivity|].
  exact (proj2 (annotation_is_replaced (lit "Standup") (lit "sunny, 18")
                  (lit "cloudy, 20") eq_refl eq_refl eq_refl)).
Defined.

Lemma getWeatherInfo_degrades_witness :
  daysDifference plain_env (T0 + 3600000) initial_state <= 14
  /\ axios_get plain_env 1 (daysDifference plain_env (T0 + 3600000) initial_state + 1)
     = inl (http_error 503)
  /\ getWeatherInfo plain_env (T0 + 3600000) initial_state
     = (after_lookup initial_state (T0 + 3600000) 2
          [AxiosGet 2; ConsoleError WEATHER_ERROR (http_error 503)],
        inr WEATHER_UNAVAILABLE).
Proof.
  assert (H : daysDifference plain_env (T0 + 3600000) initial_state <= 14)
    by (vm_compute; discriminate).
  split; [exact H|]. split; [reflexivity|].
  exact (proj1 (getWeatherInfo_degrades plain_env (T0 + 3600000) initial_state H)
           (http_error 503) eq_refl).
Defined.

Lemma getWeatherInfo_picks_slot_witness :
  daysDifference env_crowded (T0 + 3600000) initial_state <= 14
  /\ axios_get env_crowded 1
       (daysDifference env_crowded (T0 + 3600000) initial_state + 1)
     = inr [crowded_day]
  /\ find_day env_crowded (T0 + 3600000) [crowded_day] = Some crowded_day
  /\ hour crowded_day <> []
  /\ snd (getWeatherInfo env_crowded (T0 + 3600000) initial_state)
     = inr (lit "(first, 1" ++ DEGREE :: lit "C)")
  /\ exists h,
       snd (getWeatherInfo env_crowded (T0 + 3600000) initial_state)
       = inr (weather_description env_crowded h)
       /\ ((getHours env_crowded (time h) = getHours env_crowded (T0 + 3600000)
            /\ exists before after,
                 hour crowded_day = before ++ h :: after
                 /\ forall h', In h' before ->
                               getHours env_crowded (time h')
                               <> getHours env_crowded (T0 + 3600000))
           \/ ((forall h', In h' (hour crowded_day) ->
                           getHours env_crowded (time h')
                           <> getHours env_crowded (T0 + 3600000))
               /\ exists after, hour crowded_day = h :: after)).
Proof.
  assert (H : daysDifference env_crowded (T0 + 3600000) initial_state <= 14)
    by (vm_compute; discriminate).
  assert (Hh : hour crowded_day <> []) by discriminate.
  split; [exact H|]. split; [reflexivity|]. split; [reflexivity|].
  split; [exact Hh|]. split; [reflexivity|].
  exact (proj2 (proj2 (getWeatherInfo_picks_slot env_crowded (T0 + 3600000)
                         initial_state [crowded_day] H eq_refl)
                  crowded_day eq_refl Hh)).
Defined.

Lemma loop_effects_only_witness :
  for_of (process_event (env_sunny JsNull) (T0 + 7 * MS_PER_DAY))
    [ev_done; ev1; ev_far] initial_state
  = (fst (for_of (process_event (env_sunny JsNull) (T0 + 7 * MS_PER_DAY))
            [ev_done; ev1; ev_far] initial_state), inr tt)
  /\ lastSyncToken
       (fst (for_of (process_event (env_sunny JsNull) (T0 + 7 * MS_PER_DAY))
               [ev_done; ev1; ev_far] initial_state))
     = JsNull.
Proof.
  split; [reflexivity|].
  exact (proj1 (loop_effects_only (env_sunny JsNull) (T0 + 7 * MS_PER_DAY)
                  [ev_done; ev1; ev_far] initial_state _ (inr tt) eq_refl)).
Defined.

Lemma loop_lookups_in_order_witness :
  for_of (process_event (env_sunny JsNull) (T0 + 7 * MS_PER_DAY))
    [ev_done; ev1; ev_far] initial_state
  = (fst (for_of (process_event (env_sunny JsNull) (T0 + 7 * MS_PER_DAY))
            [ev_done; ev1; ev_far] initial_state), inr tt)
  /\ lookups
       (trace (fst (for_of (process_event (env_sunny JsNull) (T0 + 7 * MS_PER_DAY))
                      [ev_done; ev1; ev_far] initial_state)))
     = lookups (trace initial_state)
       ++ List.map (fun ev => GetWeatherInfo (eventDate ev))
            (filter (in_window (T0 + 7 * MS_PER_DAY)) [ev_done; ev1; ev_far]).
Proof.
  split; [reflexivity|].
  exact (proj1 (loop_lookups_in_order (env_sunny JsNull) (T0 + 7 * MS_PER_DAY)
                  [ev_done; ev1; ev_far] initial_state _ eq_refl)).
Defined.

Lemma loop_patches_changed_events_witness :
  for_of (process_event (env_sunny JsNull) (T0 + 7 * MS_PER_DAY))
    [ev_done; ev1; ev_far] initial_state
  = (fst (for_of (process_event (env_sunny JsNull) (T0 + 7 * MS_PER_DAY))
            [ev_done; ev1; ev_far] initial_state), inr tt)
  /\ In (EventsPatch (lit "e1") (lit "Standup (sunny, 19" ++ DEGREE :: lit "C)"))
       (trace (fst (for_of (process_event (env_sunny JsNull) (T0 + 7 * MS_PER_DAY))
                      [ev_done; ev1; ev_far] initial_state)))
  /\ (In (EventsPatch (lit "e1") (lit "Standup (sunny, 19" ++ DEGREE :: lit "C)"))
         (trace initial_state)
      \/ exists ev body,
           In ev [ev_done; ev1; ev_far]
           /\ eventDate ev <= T0 + 7 * MS_PER_DAY
           /\ lit "e1" = eventId ev
           /\ lit "Standup (sunny, 19" ++ DEGREE :: lit "C)"
              = newTitle (cleanTitle (summary ev)) (in_parens body)
           /\ lit "Standup (sunny, 19" ++ DEGREE :: lit "C)" <> summary ev).
Proof.
  assert (Hi : In (EventsPatch (lit "e1")
                     (lit "Standup (sunny, 19" ++ DEGREE :: lit "C)"))
                 (trace (fst (for_of (process_event (env_sunny JsNull)
                                        (T0 + 7 * MS_PER_DAY))
                                [ev_done; ev1; ev_far] initial_state)))).
  { vm_compute. do 4 right. left. reflexivity. }
  split; [reflexivity|]. split; [exact Hi|].
  exact (loop_patches_changed_events (env_sunny JsNull) (T0 + 7 * MS_PER_DAY)
           [ev_done; ev1; ev_far] initial_state _ (inr tt) _ _ eq_refl Hi).
Defined.

Lemma cycle_requests_exclusive_witness :
  updateCalendarEvents 3 env_gone_twice (JsString (lit "old"))
    (with_token (lit "old"))
  = Some {| lastSyncToken := JsString (lit "t1");
            calls := 9;
            trace := [EventsList {| timeMin := None; timeMax := None;
                                    syncToken := Some (lit "old") |};
                      SetLastSyncToken JsNull;
                      EventsList {| timeMin := Some (T0 + 3000);
                                    timeMax := Some (T0 + 4000 + 7 * MS_PER_DAY);
                                    syncToken := None |};
                      SetLastSyncToken JsNull;
                      EventsList {| timeMin := Some (T0 + 6000);
                                    timeMax := Some (T0 + 7000 + 7 * MS_PER_DAY);
                                    syncToken := None |};
                      SetLastSyncToken (JsString (lit "t1"))] |}
  /\ exclusive (cycle_params env_gone_twice (JsString (lit "old"))
                  (with_token (lit "old"))) = true.
Proof.
  split; [reflexivity|].
  exact (proj1 (cycle_requests_exclusive env_gone_twice 3 (JsString (lit "old"))
                  (with_token (lit "old")) _ eq_refl)).
Defined.

Lemma patch_410_restarts_cycle_witness :
  fetch_answer env_patch_gone JsNull initial_state
  = inr {| items := Some [ev1; ev2]; nextSyncToken := JsString (lit "t1") |}
  /\ process_event env_patch_gone (cycle_timeMax env_patch_gone initial_state)
       ev1 (after_fetch env_patch_gone JsNull initial_state (JsString (lit "t1")))
     = ({| lastSyncToken := JsString (lit "t1");
           calls := 6;
           trace := [EventsList {| timeMin := Some T0;
                                   timeMax := Some (T0 + 1000 + 7 * MS_PER_DAY);
                                   syncToken := None |};
                     SetLastSyncToken (JsString (lit "t1"));
                     GetWeatherInfo (T0 + 3600000);
                     AxiosGet 2;
                     ConsoleError WEATHER_ERROR (http_error 503);
                     EventsPatch (lit "e1") (lit "Standup (weather unavailable)")] |},
        inl (http_error 410))
  /\ is_410 (http_error 410) = true
  /\ updateCalendarEvents 2 env_patch_gone JsNull initial_state
     = updateCalendarEvents 1 env_patch_gone JsUndefined
         {| lastSyncToken := JsNull;
            calls := 6;
            trace := [EventsList {| timeMin := Some T0;
                                    timeMax := Some (T0 + 1000 + 7 * MS_PER_DAY);
                                    syncToken := None |};
                      SetLastSyncToken (JsString (lit "t1"));
                      GetWeatherInfo (T0 + 3600000);
                      AxiosGet 2;
                      ConsoleError WEATHER_ERROR (http_error 503);
                      EventsPatch (lit "e1") (lit "Standup (weather unavailable)");
                      SetLastSyncToken JsNull] |}.
Proof.
  split; [reflexivity|]. split; [reflexivity|]. split; [reflexivity|].
  exact (proj1 (patch_410_restarts_cycle env_patch_gone JsNull initial_state
                  {| items := Some [ev1; ev2]; nextSyncToken := JsString (lit "t1") |}
                  [] [ev2] ev1 _ _ (http_error 410) 1
                  eq_refl eq_refl eq_refl eq_refl eq_refl)).
Defined.

Lemma cycle_returns_without_410_witness :
  (forall n p e, events_list env_patch_fails n p = inl e -> is_410 e = false)
  /\ (forall n id title e,
        events_patch env_patch_fails n id title = Some e -> is_410 e = false)
  /\ exists st',
       (forall fuel,
          updateCalendarEvents (S fuel) env_patch_fails JsNull initial_state
          = Some st')
       /\ List.length (fetches (trace st')) = 1%nat.
Proof.
  assert (HL : forall n p e,
             events_list env_patch_fails n p = inl e -> is_410 e = false)
    by (intros n p e H; discriminate H).
  assert (HP : forall n id title e,
             events_patch env_patch_fails n id title = Some e -> is_410 e = false).
  { intros n id title e. cbn [env_patch_fails utc_env events_patch].
    unfold patch_fails. destruct (jsstring_eqb id (lit "e1")); [|discriminate].
    now intros [= <-]. }
  split; [exact HL|]. split; [exact HP|].
  exact (cycle_returns_without_410 env_patch_fails JsNull initial_state HL HP).
Defined.

Lemma patched_event_is_left_alone_witness :
  eventDate ev_done <= T0 + 7 * MS_PER_DAY
  /\ getWeatherInfo (env_sunny JsNull) (eventDate ev_done) initial_state
     = (after_lookup initial_state (T0 + 3600000) 2 [AxiosGet 2],
        inr (in_parens (lit "sunny, 19" ++ DEGREE :: lit "C")))
  /\ has_close (lit "sunny, 19" ++ DEGREE :: lit "C") = false
  /\ well_formed (lit "(old) Review") = true
  /\ no_open (cleanTitle (lit "(old) Review")) = true
  /\ summary ev_done
     = newTitle (cleanTitle (lit "(old) Review"))
         (in_parens (lit "sunny, 19" ++ DEGREE :: lit "C"))
  /\ process_event (env_sunny JsNull) (T0 + 7 * MS_PER_DAY) ev_done initial_state
     = (after_lookup initial_state (T0 + 3600000) 2 [AxiosGet 2], inr tt).
Proof.
  assert (H : eventDate ev_done <= T0 + 7 * MS_PER_DAY) by (vm_compute; discriminate).
  split; [exact H|]. do 5 (split; [reflexivity|]).
  exact (patched_event_is_left_alone (env_sunny JsNull) (T0 + 7 * MS_PER_DAY)
           ev_done initial_state _ (lit "(old) Review")
           (lit "sunny, 19" ++ DEGREE :: lit "C")
           H eq_refl eq_refl eq_refl eq_refl eq_refl).
Defined.

Lemma scheduled_update_is_full_range_witness :
  events_list env_list_fails 2 (full_range env_list_fails (with_token (lit "old")))
  = inl (http_error 500)
  /\ is_410 (http_error 500) = false
  /\ scheduled_update 1 env_list_fails (with_token (lit "old"))
     = Some {| lastSyncToken := JsNull;
               calls := 3;
               trace := [SetLastSyncToken JsNull;
                         EventsList {| timeMin := Some T0;
                                       timeMax := Some (T0 + 1000 + 7 * MS_PER_DAY);
                                       syncToken := None |};
                         ConsoleError UPDATE_ERROR (http_error 500)] |}.
Proof.
  split; [reflexivity|]. split; [reflexivity|].
  exact (proj2 (scheduled_update_is_full_range env_list_fails
                  (with_token (lit "old")))
           (http_error 500) 0%nat eq_refl eq_refl).
Defined.

Lemma health_reports_token_witness :
  fetch_answer plain_env JsNull initial_state
  = inr {| items := Some []; nextSyncToken := JsString (lit "t1") |}
  /\ snd (try_block plain_env JsNull initial_state) = inr tt
  /\ exists st',
       updateCalendarEvents 1 plain_env JsNull initial_state = Some st'
       /\ snd (http_server plain_env (lit "/health") st')
          = inr {| statusCode := 200;
                   contentType := "application/json";
                   body := HealthJson "healthy" "active" (clock plain_env (calls st')) |}.
Proof.
  split; [reflexivity|]. split; [reflexivity|].
  refine (proj2 (health_reports_token plain_env JsNull initial_state
                   {| items := Some []; nextSyncToken := JsString (lit "t1") |})
            eq_refl _ 0%nat).
  intros e H. discriminate H.
Defined.

Lemma watch_uses_captured_token_witness :
  fetch_answer plain_env JsNull initial_state
  = inr {| items := Some []; nextSyncToken := JsString (lit "t1") |}
  /\ snd (try_block plain_env JsNull initial_state) = inr tt
  /\ exists st',
       updateCalendarEvents 1 plain_env JsNull initial_state = Some st'
       /\ forall fuel' st'',
            watchForChanges fuel' plain_env st' = Some st'' ->
            exists rest,
              trace st''
              = trace st' ++ EventsList {| timeMin := None; timeMax := None;
                                           syncToken := Some (lit "t1") |} :: rest.
Proof.
  split; [reflexivity|]. split; [reflexivity|].
  refine (watch_uses_captured_token plain_env JsNull initial_state
            {| items := Some []; nextSyncToken := JsString (lit "t1") |}
            116%N [49%N] 0 eq_refl eq_refl _).
  intros e H. discriminate H.
Defined.

End MoreRuns.
